(** * MultiTrackPlayer: a shallow embedding of the transport and scheduling core

    The development follows the latest [MultiTrackPlayer] class of
    [MultiTrackPlayer.js] (the one with [_subdivisionNoteValue], [_isMuted]
    and [_lastVolume]).

    JavaScript numbers are modelled by exact rationals ([Q]): tempo, meter,
    gains and audio-clock timestamps.  Rounding of IEEE doubles, NaN and the
    infinities are therefore outside the model.  The column pointer, which
    the code only ever increments by one or resets, is an integer ([Z]), and
    so are the column keys of a track's cell map.

    A method of the class becomes a function from the player state to the
    new state paired with the trace of observable effects, in program order:
    dispatched events, console diagnostics and the [start] and [stop] calls
    made on buffer sources.  The Web Audio objects are collaborators: a gain
    node is represented by the value last handed to [gain.setValueAtTime],
    the audio clock is an argument of the methods that read
    [audioContext.currentTime], and a buffer source refuses a buffer that is
    no [AudioBuffer], as the browser's does. *)

From Stdlib Require Import QArith Qminmax Qround Lqa.
From stdpp Require Import gmap strings list fin_maps.

Local Open Scope Q_scope.

(** ** Rational comparisons as the code writes them *)

Definition Qltb (a b : Q) : bool := negb (Qle_bool b a).
Definition Qgeb (a b : Q) : bool := Qle_bool b a.

(** [Math.max(0, Math.min(1, volume))] *)
Definition clamp01 (v : Q) : Q := Qmax 0 (Qmin 1 v).

(** ** Data model *)

(** A decoded sample, named as the application keys its [audioFiles] table. *)
Definition AudioBuffer := string.

(** What a grid cell holds.  The application places either one decoded
    buffer or the object [{ open, slap, slapMultiplier }]; both are objects,
    so the scheduler's test [if (audioBuffer)] succeeds exactly when the cell
    is set.  Only the first is an [AudioBuffer]. *)
Inductive Placement : Type :=
| Single (buffer : AudioBuffer)
| Combined (open slap : AudioBuffer) (slapMultiplier : Q).

(** One entry of [_tracks]: the gain node is represented by its current
    [gain.value]. *)
Record Track : Type := mkTrack {
  gain : Q;
  cells : gmap Z Placement;
  _isMuted : bool;
  _lastVolume : Q
}.

(** An [AudioBufferSourceNode] made by [createBufferSource]: its identity,
    the value assigned to [source.buffer], the track whose gain node it is
    connected to, and the argument of [source.start]. *)
Record Source : Type := mkSource {
  src_id : nat;
  src_buffer : Placement;
  src_track : string;
  src_when : Q
}.

Inductive Event : Type :=
| EvPlay
| EvPause
| EvStop
| EvGridCellChanged (columnIndex : Z) (time : Q)
| EvBpmChanged (bpm : Q)
| EvTimeSignatureChanged (numerator denominator : Q)
| EvSubdivisionChanged (subdivisionNoteValue : Q)
| EvLoopingChanged (loop : bool)
| EvTrackAdded (trackId : string)
| EvTrackRemoved (trackId : string)
| EvAudioAddedToGrid (trackId : string) (columnIndex : Z) (audioBuffer : Placement)
| EvAudioRemovedFromGrid (trackId : string) (columnIndex : Z)
| EvTrackVolumeChanged (trackId : string) (volume : Q)
| EvTrackMuteChanged (trackId : string) (isMuted : bool)
| EvMasterVolumeChanged (volume : Q).

Inductive Effect : Type :=
| Dispatch (e : Event)
| ConsoleWarn (msg : string)
| ConsoleError (msg : string)
| SourceStart (src : Source)
| SourceStop (src : Source)
| Uncaught (error : string).

(** The fields of the class.  [_tracks] is a JavaScript [Map]: it iterates
    in insertion order, so it is kept as an association list. *)
Record Player : Type := mkPlayer {
  masterGain : Q;
  _tracks : list (string * Track);
  _bpm : Q;
  _timeSignatureNumerator : Q;
  _timeSignatureDenominator : Q;
  _subdivisionNoteValue : Q;
  _loop : bool;
  _isPlaying : bool;
  _isPaused : bool;
  _playbackTime : Q;
  _currentCellIndex : Z;
  _nextCellTime : Q;
  _lookAheadTime : Q;
  _scheduledSources : list Source;
  nextSourceId : nat
}.

(** The state left by the constructor (field initialisers, then
    [setMasterVolume(1.0)]). *)
Definition initial : Player := {|
  masterGain := 1;
  _tracks := [];
  _bpm := 120;
  _timeSignatureNumerator := 4;
  _timeSignatureDenominator := 4;
  _subdivisionNoteValue := 16;
  _loop := true;
  _isPlaying := false;
  _isPaused := false;
  _playbackTime := 0;
  _currentCellIndex := (-1)%Z;
  _nextCellTime := 0;
  _lookAheadTime := 1 # 10;
  _scheduledSources := [];
  nextSourceId := O
|}.


(** ** Field assignments

    [set_f v p] is the state after [this.f = v]. *)

Definition set_masterGain (v : Q) (p : Player) : Player :=
  {| masterGain := v; _tracks := _tracks p; _bpm := _bpm p;
     _timeSignatureNumerator := _timeSignatureNumerator p;
     _timeSignatureDenominator := _timeSignatureDenominator p;
     _subdivisionNoteValue := _subdivisionNoteValue p; _loop := _loop p;
     _isPlaying := _isPlaying p; _isPaused := _isPaused p;
     _playbackTime := _playbackTime p;
     _currentCellIndex := _currentCellIndex p;
     _nextCellTime := _nextCellTime p; _lookAheadTime := _lookAheadTime p;
     _scheduledSources := _scheduledSources p;
     nextSourceId := nextSourceId p |}.

Definition set_tracks (v : list (string * Track)) (p : Player) : Player :=
  {| masterGain := masterGain p; _tracks := v; _bpm := _bpm p;
     _timeSignatureNumerator := _timeSignatureNumerator p;
     _timeSignatureDenominator := _timeSignatureDenominator p;
     _subdivisionNoteValue := _subdivisionNoteValue p; _loop := _loop p;
     _isPlaying := _isPlaying p; _isPaused := _isPaused p;
     _playbackTime := _playbackTime p;
     _currentCellIndex := _currentCellIndex p;
     _nextCellTime := _nextCellTime p; _lookAheadTime := _lookAheadTime p;
     _scheduledSources := _scheduledSources p;
     nextSourceId := nextSourceId p |}.

Definition set_bpm (v : Q) (p : Player) : Player :=
  {| masterGain := masterGain p; _tracks := _tracks p; _bpm := v;
     _timeSignatureNumerator := _timeSignatureNumerator p;
     _timeSignatureDenominator := _timeSignatureDenominator p;
     _subdivisionNoteValue := _subdivisionNoteValue p; _loop := _loop p;
     _isPlaying := _isPlaying p; _isPaused := _isPaused p;
     _playbackTime := _playbackTime p;
     _currentCellIndex := _currentCellIndex p;
     _nextCellTime := _nextCellTime p; _lookAheadTime := _lookAheadTime p;
     _scheduledSources := _scheduledSources p;
     nextSourceId := nextSourceId p |}.

Definition set_timeSignatureNumerator (v : Q) (p : Player) : Player :=
  {| masterGain := masterGain p; _tracks := _tracks p; _bpm := _bpm p;
     _timeSignatureNumerator := v;
     _timeSignatureDenominator := _timeSignatureDenominator p;
     _subdivisionNoteValue := _subdivisionNoteValue p; _loop := _loop p;
     _isPlaying := _isPlaying p; _isPaused := _isPaused p;
     _playbackTime := _playbackTime p;
     _currentCellIndex := _currentCellIndex p;
     _nextCellTime := _nextCellTime p; _lookAheadTime := _lookAheadTime p;
     _scheduledSources := _scheduledSources p;
     nextSourceId := nextSourceId p |}.

Definition set_timeSignatureDenominator (v : Q) (p : Player) : Player :=
  {| masterGain := masterGain p; _tracks := _tracks p; _bpm := _bpm p;
     _timeSignatureNumerator := _timeSignatureNumerator p;
     _timeSignatureDenominator := v;
     _subdivisionNoteValue := _subdivisionNoteValue p; _loop := _loop p;
     _isPlaying := _isPlaying p; _isPaused := _isPaused p;
     _playbackTime := _playbackTime p;
     _currentCellIndex := _currentCellIndex p;
     _nextCellTime := _nextCellTime p; _lookAheadTime := _lookAheadTime p;
     _scheduledSources := _scheduledSources p;
     nextSourceId := nextSourceId p |}.

Definition set_subdivisionNoteValue (v : Q) (p : Player) : Player :=
  {| masterGain := masterGain p; _tracks := _tracks p; _bpm := _bpm p;
     _timeSignatureNumerator := _timeSignatureNumerator p;
     _timeSignatureDenominator := _timeSignatureDenominator p;
     _subdivisionNoteValue := v; _loop := _loop p;
     _isPlaying := _isPlaying p; _isPaused := _isPaused p;
     _playbackTime := _playbackTime p;
     _currentCellIndex := _currentCellIndex p;
     _nextCellTime := _nextCellTime p; _lookAheadTime := _lookAheadTime p;
     _scheduledSources := _scheduledSources p;
     nextSourceId := nextSourceId p |}.

Definition set_loop (v : bool) (p : Player) : Player :=
  {| masterGain := masterGain p; _tracks := _tracks p; _bpm := _bpm p;
     _timeSignatureNumerator := _timeSignatureNumerator p;
     _timeSignatureDenominator := _timeSignatureDenominator p;
     _subdivisionNoteValue := _subdivisionNoteValue p; _loop := v;
     _isPlaying := _isPlaying p; _isPaused := _isPaused p;
     _playbackTime := _playbackTime p;
     _currentCellIndex := _currentCellIndex p;
     _nextCellTime := _nextCellTime p; _lookAheadTime := _lookAheadTime p;
     _scheduledSources := _scheduledSources p;
     nextSourceId := nextSourceId p |}.

Definition set_isPlaying (v : bool) (p : Player) : Player :=
  {| masterGain := masterGain p; _tracks := _tracks p; _bpm := _bpm p;
     _timeSignatureNumerator := _timeSignatureNumerator p;
     _timeSignatureDenominator := _timeSignatureDenominator p;
     _subdivisionNoteValue := _subdivisionNoteValue p; _loop := _loop p;
     _isPlaying := v; _isPaused := _isPaused p;
     _playbackTime := _playbackTime p;
     _currentCellIndex := _currentCellIndex p;
     _nextCellTime := _nextCellTime p; _lookAheadTime := _lookAheadTime p;
     _scheduledSources := _scheduledSources p;
     nextSourceId := nextSourceId p |}.

Definition set_isPaused (v : bool) (p : Player) : Player :=
  {| masterGain := masterGain p; _tracks := _tracks p; _bpm := _bpm p;
     _timeSignatureNumerator := _timeSignatureNumerator p;
     _timeSignatureDenominator := _timeSignatureDenominator p;
     _subdivisionNoteValue := _subdivisionNoteValue p; _loop := _loop p;
     _isPlaying := _isPlaying p; _isPaused := v;
     _playbackTime := _playbackTime p;
     _currentCellIndex := _currentCellIndex p;
     _nextCellTime := _nextCellTime p; _lookAheadTime := _lookAheadTime p;
     _scheduledSources := _scheduledSources p;
     nextSourceId := nextSourceId p |}.

Definition set_playbackTime (v : Q) (p : Player) : Player :=
  {| masterGain := masterGain p; _tracks := _tracks p; _bpm := _bpm p;
     _timeSignatureNumerator := _timeSignatureNumerator p;
     _timeSignatureDenominator := _timeSignatureDenominator p;
     _subdivisionNoteValue := _subdivisionNoteValue p; _loop := _loop p;
     _isPlaying := _isPlaying p; _isPaused := _isPaused p;
     _playbackTime := v; _currentCellIndex := _currentCellIndex p;
     _nextCellTime := _nextCellTime p; _lookAheadTime := _lookAheadTime p;
     _scheduledSources := _scheduledSources p;
     nextSourceId := nextSourceId p |}.

Definition set_currentCellIndex (v : Z) (p : Player) : Player :=
  {| masterGain := masterGain p; _tracks := _tracks p; _bpm := _bpm p;
     _timeSignatureNumerator := _timeSignatureNumerator p;
     _timeSignatureDenominator := _timeSignatureDenominator p;
     _subdivisionNoteValue := _subdivisionNoteValue p; _loop := _loop p;
     _isPlaying := _isPlaying p; _isPaused := _isPaused p;
     _playbackTime := _playbackTime p; _currentCellIndex := v;
     _nextCellTime := _nextCellTime p; _lookAheadTime := _lookAheadTime p;
     _scheduledSources := _scheduledSources p;
     nextSourceId := nextSourceId p |}.

Definition set_nextCellTime (v : Q) (p : Player) : Player :=
  {| masterGain := masterGain p; _tracks := _tracks p; _bpm := _bpm p;
     _timeSignatureNumerator := _timeSignatureNumerator p;
     _timeSignatureDenominator := _timeSignatureDenominator p;
     _subdivisionNoteValue := _subdivisionNoteValue p; _loop := _loop p;
     _isPlaying := _isPlaying p; _isPaused := _isPaused p;
     _playbackTime := _playbackTime p;
     _currentCellIndex := _currentCellIndex p; _nextCellTime := v;
     _lookAheadTime := _lookAheadTime p;
     _scheduledSources := _scheduledSources p;
     nextSourceId := nextSourceId p |}.

Definition set_scheduledSources (v : list Source) (p : Player) : Player :=
  {| masterGain := masterGain p; _tracks := _tracks p; _bpm := _bpm p;
     _timeSignatureNumerator := _timeSignatureNumerator p;
     _timeSignatureDenominator := _timeSignatureDenominator p;
     _subdivisionNoteValue := _subdivisionNoteValue p; _loop := _loop p;
     _isPlaying := _isPlaying p; _isPaused := _isPaused p;
     _playbackTime := _playbackTime p;
     _currentCellIndex := _currentCellIndex p;
     _nextCellTime := _nextCellTime p; _lookAheadTime := _lookAheadTime p;
     _scheduledSources := v; nextSourceId := nextSourceId p |}.

Definition set_nextSourceId (v : nat) (p : Player) : Player :=
  {| masterGain := masterGain p; _tracks := _tracks p; _bpm := _bpm p;
     _timeSignatureNumerator := _timeSignatureNumerator p;
     _timeSignatureDenominator := _timeSignatureDenominator p;
     _subdivisionNoteValue := _subdivisionNoteValue p; _loop := _loop p;
     _isPlaying := _isPlaying p; _isPaused := _isPaused p;
     _playbackTime := _playbackTime p;
     _currentCellIndex := _currentCellIndex p;
     _nextCellTime := _nextCellTime p; _lookAheadTime := _lookAheadTime p;
     _scheduledSources := _scheduledSources p; nextSourceId := v |}.

Definition track_set_gain (v : Q) (t : Track) : Track :=
  {| gain := v; cells := cells t; _isMuted := _isMuted t;
     _lastVolume := _lastVolume t |}.

Definition track_set_cells (v : gmap Z Placement) (t : Track) : Track :=
  {| gain := gain t; cells := v; _isMuted := _isMuted t;
     _lastVolume := _lastVolume t |}.

Definition track_set_isMuted (v : bool) (t : Track) : Track :=
  {| gain := gain t; cells := cells t; _isMuted := v;
     _lastVolume := _lastVolume t |}.

Definition track_set_lastVolume (v : Q) (t : Track) : Track :=
  {| gain := gain t; cells := cells t; _isMuted := _isMuted t;
     _lastVolume := v |}.

(** ** Tempo and meter *)

Definition _calculateCellDuration (p : Player) : Q :=
  let secondsPerWholeNote := 240 / _bpm p in
  secondsPerWholeNote / _subdivisionNoteValue p.

Definition _getMaxColumns (p : Player) : Q :=
  let totalSubdivisionNotesInMeasure :=
    _timeSignatureNumerator p *
    (_subdivisionNoteValue p / _timeSignatureDenominator p) in
  totalSubdivisionNotesInMeasure.

(** ** The [Map] of tracks

    [Map.prototype.has], [get], [set] and [delete] on an insertion-ordered
    association list: [set] on a present key overwrites in place and keeps
    the entry's position, [set] on a fresh key appends. *)

Section JSMap.
Context {V : Type}.

Fixpoint Map_get (k : string) (m : list (string * V)) : option V :=
  match m with
  | [] => None
  | (k', v) :: m' => if String.eqb k k' then Some v else Map_get k m'
  end.

Definition Map_has (k : string) (m : list (string * V)) : bool :=
  match Map_get k m with
  | Some _ => true
  | None => false
  end.

Fixpoint Map_set (k : string) (v : V) (m : list (string * V))
  : list (string * V) :=
  match m with
  | [] => [(k, v)]
  | (k', v') :: m' =>
      if String.eqb k k' then (k', v) :: m' else (k', v') :: Map_set k v m'
  end.

Fixpoint Map_delete (k : string) (m : list (string * V))
  : list (string * V) :=
  match m with
  | [] => []
  | (k', v') :: m' =>
      if String.eqb k k' then m' else (k', v') :: Map_delete k m'
  end.
End JSMap.

(** ** Transport *)

(** The outcome of a method: the state it leaves and what it emitted. *)
Definition Outcome : Type := Player * list Effect.

(** Both [pause] and [stop] call [source.stop()] on every source of
    [_scheduledSources] (exceptions are swallowed) and then clear the set. *)
Definition stopAll (p : Player) : list Effect :=
  map SourceStop (_scheduledSources p).

(** [play()], called when the audio clock reads [now].  (Resuming a
    suspended [AudioContext] concerns the collaborator only.) *)
Definition play (now : Q) (p : Player) : Outcome :=
  if _isPlaying p then (p, [])
  else
    let p1 :=
      if negb (_isPaused p) then
        set_playbackTime 0
          (set_nextCellTime now (set_currentCellIndex (-1)%Z p))
      else p in
    (set_isPaused false (set_isPlaying true p1), [Dispatch EvPlay]).

(** [pause()], called when the audio clock reads [now]. *)
Definition pause (now : Q) (p : Player) : Outcome :=
  if negb (_isPlaying p) then (p, [])
  else
    let p1 := set_isPaused true (set_isPlaying false p) in
    let stops := stopAll p1 in
    let p2 := set_scheduledSources [] p1 in
    let cellDuration := _calculateCellDuration p2 in
    let t :=
      inject_Z (_currentCellIndex p2) * cellDuration
      + (now - (_nextCellTime p2 - cellDuration)) in
    let p3 := set_playbackTime (if Qltb t 0 then 0 else t) p2 in
    (p3, stops ++ [Dispatch EvPause]).

Definition stop (p : Player) : Outcome :=
  if negb (_isPlaying p) && negb (_isPaused p) then (p, [])
  else
    let p1 :=
      set_playbackTime 0
        (set_currentCellIndex (-1)%Z
           (set_isPaused false (set_isPlaying false p))) in
    let stops := stopAll p1 in
    (set_scheduledSources [] p1,
     stops ++ [Dispatch EvStop; Dispatch (EvGridCellChanged (-1)%Z 0)]).

(** ** Configuration *)

Definition setBPM (bpm : Q) (p : Player) : Outcome :=
  if _isPlaying p || _isPaused p then
    (p, [ConsoleWarn
           "Cannot change BPM while playing or paused. Please stop the player first."])
  else if Qle_bool bpm 0 then
    (p, [ConsoleError "BPM must be a positive number."])
  else
    let p1 := set_bpm bpm p in
    (p1, [Dispatch (EvBpmChanged (_bpm p1))]).

Definition setTimeSignature (numerator denominator : Q) (p : Player)
  : Outcome :=
  if _isPlaying p || _isPaused p then
    (p, [ConsoleWarn
           "Cannot change time signature while playing or paused. Please stop the player first."])
  else if Qle_bool numerator 0 || Qle_bool denominator 0 then
    (p, [ConsoleError "Time signature parts must be positive numbers."])
  else
    let p1 :=
      set_timeSignatureDenominator denominator
        (set_timeSignatureNumerator numerator p) in
    (p1, [Dispatch (EvTimeSignatureChanged (_timeSignatureNumerator p1)
                      (_timeSignatureDenominator p1))]).

(** [[4, 8, 16, 32].includes(x)] *)
Definition supportedSubdivision (x : Q) : bool :=
  existsb (Qeq_bool x) [4; 8; 16; 32].

Definition setSubdivisionNoteValue (subdivisionNoteValue : Q) (p : Player)
  : Outcome :=
  if _isPlaying p || _isPaused p then
    (p, [ConsoleWarn
           "Cannot change subdivision while playing or paused. Please stop the player first."])
  else if negb (supportedSubdivision subdivisionNoteValue) then
    (p, [ConsoleError "Subdivision note value must be 4, 8, 16, or 32."])
  else
    let p1 := set_subdivisionNoteValue subdivisionNoteValue p in
    (p1, [Dispatch (EvSubdivisionChanged (_subdivisionNoteValue p1))]).

Definition setLooping (loop : bool) (p : Player) : Outcome :=
  let p1 := set_loop loop p in
  (p1, [Dispatch (EvLoopingChanged (_loop p1))]).

(** ** Tracks and cells *)

(** The object stored by [addTrack]; a gain node made by [createGain] starts
    at gain 1. *)
Definition newTrack : Track :=
  {| gain := 1; cells := ∅; _isMuted := false; _lastVolume := 1 |}.

Definition addTrack (trackId : string) (p : Player) : Outcome :=
  if Map_has trackId (_tracks p) then
    (p, [ConsoleWarn ("Track with ID '" +:+ trackId +:+ "' already exists.")])
  else
    (set_tracks (Map_set trackId newTrack (_tracks p)) p,
     [Dispatch (EvTrackAdded trackId)]).

Definition removeTrack (trackId : string) (p : Player) : Outcome :=
  if _isPlaying p || _isPaused p then
    (p, [ConsoleWarn
           "Cannot remove track while playing or paused. Please stop the player first."])
  else if negb (Map_has trackId (_tracks p)) then
    (p, [ConsoleWarn ("Track with ID '" +:+ trackId +:+ "' does not exist.")])
  else
    (set_tracks (Map_delete trackId (_tracks p)) p,
     [Dispatch (EvTrackRemoved trackId)]).

Definition addAudioToGrid (trackId : string) (columnIndex : Z)
    (audioBuffer : Placement) (p : Player) : Outcome :=
  if _isPlaying p || _isPaused p then
    (p, [ConsoleWarn
           "Cannot add audio to grid while playing or paused. Please stop the player first."])
  else
    match Map_get trackId (_tracks p) with
    | None =>
        (p, [ConsoleError
               ("Track with ID '" +:+ trackId +:+ "' does not exist.")])
    | Some track =>
        if (columnIndex <? 0)%Z then
          (p, [ConsoleError "Column index must be non-negative."])
        else
          let track' :=
            track_set_cells (<[columnIndex := audioBuffer]> (cells track))
              track in
          (set_tracks (Map_set trackId track' (_tracks p)) p,
           [Dispatch (EvAudioAddedToGrid trackId columnIndex audioBuffer)])
    end.

Definition removeAudioFromGrid (trackId : string) (columnIndex : Z)
    (p : Player) : Outcome :=
  if _isPlaying p || _isPaused p then
    (p, [ConsoleWarn
           "Cannot remove audio from grid while playing or paused. Please stop the player first."])
  else
    match Map_get trackId (_tracks p) with
    | None =>
        (p, [ConsoleWarn
               ("Track with ID '" +:+ trackId +:+ "' does not exist.")])
    | Some track =>
        match cells track !! columnIndex with
        | Some _ =>
            let track' :=
              track_set_cells (delete columnIndex (cells track)) track in
            (set_tracks (Map_set trackId track' (_tracks p)) p,
             [Dispatch (EvAudioRemovedFromGrid trackId columnIndex)])
        | None => (p, [])
        end
    end.

(** ** Gains *)

Definition outOfUnit (volume : Q) : bool := Qltb volume 0 || Qltb 1 volume.

Definition setTrackVolume (trackId : string) (volume : Q) (p : Player)
  : Outcome :=
  match Map_get trackId (_tracks p) with
  | None =>
      (p, [ConsoleWarn ("Track with ID '" +:+ trackId +:+ "' does not exist.")])
  | Some track =>
      let warn :=
        if outOfUnit volume
        then [ConsoleWarn "Volume must be between 0.0 and 1.0."] else [] in
      let volume := if outOfUnit volume then clamp01 volume else volume in
      let track1 :=
        if negb (_isMuted track) then track_set_gain volume track else track in
      let track2 := track_set_lastVolume volume track1 in
      (set_tracks (Map_set trackId track2 (_tracks p)) p,
       warn ++ [Dispatch (EvTrackVolumeChanged trackId volume)])
  end.

Definition setTrackMuted (trackId : string) (isMuted : bool) (p : Player)
  : Outcome :=
  match Map_get trackId (_tracks p) with
  | None =>
      (p, [ConsoleWarn ("Track with ID '" +:+ trackId +:+ "' does not exist.")])
  | Some track =>
      let track1 := track_set_isMuted isMuted track in
      let track2 :=
        if isMuted then track_set_gain 0 track1
        else track_set_gain (_lastVolume track1) track1 in
      (set_tracks (Map_set trackId track2 (_tracks p)) p,
       [Dispatch (EvTrackMuteChanged trackId isMuted)])
  end.

Definition setMasterVolume (volume : Q) (p : Player) : Outcome :=
  let warn :=
    if outOfUnit volume
    then [ConsoleWarn "Master volume must be between 0.0 and 1.0."] else [] in
  let volume := if outOfUnit volume then clamp01 volume else volume in
  (set_masterGain volume p, warn ++ [Dispatch (EvMasterVolumeChanged volume)]).

(** What [getStatus()] and the track lookups of the application read. *)
Definition getStatus (p : Player) : bool * bool := (_isPlaying p, _isPaused p).

Definition trackGain (trackId : string) (p : Player) : option Q :=
  gain <$> Map_get trackId (_tracks p).

(** ** The look-ahead scheduler *)

(** What the [buffer] setter of an [AudioBufferSourceNode] accepts: an
    [AudioBuffer].  Handed the application's composite object
    [{ open, slap, slapMultiplier }], it throws a [TypeError]. *)
Definition isAudioBuffer (value : Placement) : bool :=
  match value with
  | Single _ => true
  | Combined _ _ _ => false
  end.

(** The [_tracks.forEach] of [_scheduleAudio] for column [idx] and deadline
    [when]: one buffer source per unmuted track that has a cell at [idx],
    in the iteration order of the registry.  The result is the list of the
    sources added to [_scheduledSources] and started, and whether the
    iteration was cut short by the [TypeError] of [source.buffer = ...], which
    leaves the callback before [connect], [add] and [start].  [fresh]
    numbers the nodes made by [createBufferSource]. *)
Fixpoint scheduleTracks (idx : Z) (when : Q) (fresh : nat)
    (tracks : list (string * Track)) : list Source * bool :=
  match tracks with
  | [] => ([], false)
  | (trackId, track) :: rest =>
      if negb (_isMuted track) then
        match cells track !! idx with
        | Some audioBuffer =>
            if isAudioBuffer audioBuffer then
              let later := scheduleTracks idx when (S fresh) rest in
              ({| src_id := fresh; src_buffer := audioBuffer;
                  src_track := trackId; src_when := when |} :: later.1,
               later.2)
            else ([], true)
        | None => scheduleTracks idx when fresh rest
        end
      else scheduleTracks idx when fresh rest
  end.

(** How one pass through the body of the [while] loop ends: at its last
    statement, at the [return] after [stop()], or at an exception that
    leaves [_scheduleAudio] altogether. *)
Inductive Flow : Type := Continue | Return | Throw.

(** One pass through the body of the [while] loop of [_scheduleAudio]. *)
Definition scheduleCell (cellDuration maxColumns : Q) (p : Player)
  : Flow * Outcome :=
  let p1 := set_currentCellIndex (_currentCellIndex p + 1)%Z p in
  let wrapped := Qltb 0 maxColumns
                 && Qgeb (inject_Z (_currentCellIndex p1)) maxColumns in
  if wrapped && negb (_loop p1) then (Return, stop p1)
  else
    let p2 := if wrapped then set_currentCellIndex 0%Z p1 else p1 in
    let changed :=
      Dispatch (EvGridCellChanged (_currentCellIndex p2) (_nextCellTime p2)) in
    let scheduled :=
      scheduleTracks (_currentCellIndex p2) (_nextCellTime p2)
        (nextSourceId p2) (_tracks p2) in
    let sources := scheduled.1 in
    let p3 :=
      set_nextSourceId (nextSourceId p2 + length sources)%nat
        (set_scheduledSources (_scheduledSources p2 ++ sources) p2) in
    if scheduled.2 then
      (Throw,
       (p3, changed :: map SourceStart sources ++ [Uncaught "TypeError"]))
    else
      let p4 := set_nextCellTime (_nextCellTime p3 + cellDuration) p3 in
      (Continue, (p4, changed :: map SourceStart sources)).

(** The [while] loop, bounded by [fuel] passes; [None] when the bound is
    hit before the loop is left. *)
Fixpoint scheduleLoop (fuel : nat) (currentTime cellDuration maxColumns : Q)
    (p : Player) : option Outcome :=
  if Qltb (_nextCellTime p) (currentTime + _lookAheadTime p) then
    match fuel with
    | O => None
    | S fuel' =>
        match scheduleCell cellDuration maxColumns p with
        | (Return, out) | (Throw, out) => Some out
        | (Continue, (p1, effs1)) =>
            match scheduleLoop fuel' currentTime cellDuration maxColumns p1 with
            | Some (p2, effs2) => Some (p2, effs1 ++ effs2)
            | None => None
            end
        end
    end
  else Some (p, []).

(** One timer tick, when the audio clock reads [currentTime]. *)
Definition _scheduleAudio (fuel : nat) (currentTime : Q) (p : Player)
  : option Outcome :=
  if negb (_isPlaying p) then Some (p, [])
  else
    let cellDuration := _calculateCellDuration p in
    let maxColumns := _getMaxColumns p in
    scheduleLoop fuel currentTime cellDuration maxColumns p.

(** The [onended] callback installed on every scheduled source. *)
Definition sourceEnded (id : nat) (p : Player) : Outcome :=
  (set_scheduledSources
     (filter (fun s => src_id s ≠ id) (_scheduledSources p)) p, []).

(** ** Reachable states *)

(** The calls the application and the browser can make on a player. *)
Inductive Call : Type :=
| CPlay (now : Q)
| CPause (now : Q)
| CStop
| CSetBPM (bpm : Q)
| CSetTimeSignature (numerator denominator : Q)
| CSetSubdivisionNoteValue (subdivisionNoteValue : Q)
| CSetLooping (loop : bool)
| CAddTrack (trackId : string)
| CRemoveTrack (trackId : string)
| CAddAudioToGrid (trackId : string) (columnIndex : Z) (audioBuffer : Placement)
| CRemoveAudioFromGrid (trackId : string) (columnIndex : Z)
| CSetTrackVolume (trackId : string) (volume : Q)
| CSetTrackMuted (trackId : string) (isMuted : bool)
| CSetMasterVolume (volume : Q)
| CTick (fuel : nat) (currentTime : Q)
| CSourceEnded (id : nat).

Definition perform (c : Call) (p : Player) : option Outcome :=
  match c with
  | CPlay now => Some (play now p)
  | CPause now => Some (pause now p)
  | CStop => Some (stop p)
  | CSetBPM bpm => Some (setBPM bpm p)
  | CSetTimeSignature n d => Some (setTimeSignature n d p)
  | CSetSubdivisionNoteValue v => Some (setSubdivisionNoteValue v p)
  | CSetLooping l => Some (setLooping l p)
  | CAddTrack t => Some (addTrack t p)
  | CRemoveTrack t => Some (removeTrack t p)
  | CAddAudioToGrid t c b => Some (addAudioToGrid t c b p)
  | CRemoveAudioFromGrid t c => Some (removeAudioFromGrid t c p)
  | CSetTrackVolume t v => Some (setTrackVolume t v p)
  | CSetTrackMuted t m => Some (setTrackMuted t m p)
  | CSetMasterVolume v => Some (setMasterVolume v p)
  | CTick fuel now => _scheduleAudio fuel now p
  | CSourceEnded id => Some (sourceEnded id p)
  end.

(** Run a sequence of calls, concatenating what they emit. *)
Fixpoint run (cs : list Call) (p : Player) : option Outcome :=
  match cs with
  | [] => Some (p, [])
  | c :: cs' =>
      match perform c p with
      | Some (p1, effs1) =>
          match run cs' p1 with
          | Some (p2, effs2) => Some (p2, effs1 ++ effs2)
          | None => None
          end
      | None => None
      end
  end.

Inductive reachable : Player -> Prop :=
| reach_initial : reachable initial
| reach_call c p p' effs :
    reachable p -> perform c p = Some (p', effs) -> reachable p'.

(** The three transport states, as a reader of [getStatus()] tells them
    apart. *)
Inductive Status : Type := Stopped | Playing | Paused.

Definition status_of (p : Player) : option Status :=
  match getStatus p with
  | (false, false) => Some Stopped
  | (true, false) => Some Playing
  | (false, true) => Some Paused
  | (true, true) => None
  end.

(** Projections of a trace. *)
Definition events (effs : list Effect) : list Event :=
  omap (fun e => match e with Dispatch ev => Some ev | _ => None end) effs.

Definition diagnostics (effs : list Effect) : list string :=
  omap (fun e => match e with
                 | ConsoleWarn m | ConsoleError m => Some m
                 | _ => None
                 end) effs.

Definition starts (effs : list Effect) : list Source :=
  omap (fun e => match e with SourceStart s => Some s | _ => None end) effs.

Definition stops (effs : list Effect) : list Source :=
  omap (fun e => match e with SourceStop s => Some s | _ => None end) effs.

(** ** The operations listed as Stopped-only *)

Inductive StoppedOnly : Type :=
| OpSetBPM (bpm : Q)
| OpSetTimeSignature (numerator denominator : Q)
| OpSetSubdivisionNoteValue (subdivisionNoteValue : Q)
| OpAddTrack (trackId : string)
| OpRemoveTrack (trackId : string)
| OpAddAudioToGrid (trackId : string) (columnIndex : Z) (audioBuffer : Placement)
| OpRemoveAudioFromGrid (trackId : string) (columnIndex : Z).

Definition invoke (op : StoppedOnly) (p : Player) : Outcome :=
  match op with
  | OpSetBPM bpm => setBPM bpm p
  | OpSetTimeSignature n d => setTimeSignature n d p
  | OpSetSubdivisionNoteValue v => setSubdivisionNoteValue v p
  | OpAddTrack t => addTrack t p
  | OpRemoveTrack t => removeTrack t p
  | OpAddAudioToGrid t c b => addAudioToGrid t c b p
  | OpRemoveAudioFromGrid t c => removeAudioFromGrid t c p
  end.

Definition isAddTrack (op : StoppedOnly) : bool :=
  match op with
  | OpAddTrack _ => true
  | _ => false
  end.

(** A call is rejected when it leaves the state as it was, reports a
    diagnostic and dispatches nothing. *)
Definition rejected (p : Player) (out : Outcome) : Prop :=
  out.1 = p /\ diagnostics out.2 ≠ [] /\ events out.2 = [].

(** The player is Playing or Paused. *)
Definition busy (p : Player) : bool := _isPlaying p || _isPaused p.

(** What a trigger hands to the audio output: the value assigned to
    [source.buffer] and the argument of [source.start]. *)
Definition trigger (s : Source) : Placement * Q := (src_buffer s, src_when s).

(** The triggers of a trace that are connected to the gain node of
    [trackId]. *)
Definition triggersOf (trackId : string) (effs : list Effect)
  : list (Placement * Q) :=
  trigger <$> filter (fun s => src_track s = trackId) (starts effs).

(** The column indices announced by [gridCellChanged] in a trace. *)
Definition columnsOf (effs : list Effect) : list Z :=
  omap (fun ev => match ev with
                  | EvGridCellChanged c _ => Some c
                  | _ => None
                  end) (events effs).

(** ** Sample sessions *)

(** The application's combined hit on the "iya" track at column 0, then
    [play()] at time 0. *)
Definition combinedSession : Player :=
  (play 0
     (addAudioToGrid "iya" 0 (Combined "iya-open" "iya-slap" 3)
        (addTrack "iya" initial).1).1).1.

(** A 3/8 meter with quarter-note cells, then [play()] at time 0. *)
Definition fractionalSession : Player :=
  (play 0 (setSubdivisionNoteValue 4 (setTimeSignature 3 8 initial).1).1).1.

(** ** The first version of the class

    [MultiTrackPlayer.js] also holds the earlier class, whose tracks have no
    mute state, whose [_subdivision] counts cells per beat and whose measure
    length is read off the grid. *)
Module V1.

Record Track : Type := mkTrack {
  gain : Q;
  cells : list (Z * AudioBuffer)
}.

Record Source : Type := mkSource {
  src_id : nat;
  src_buffer : AudioBuffer;
  src_track : string;
  src_when : Q
}.

Record Player : Type := mkPlayer {
  masterGain : Q;
  _tracks : list (string * Track);
  _bpm : Q;
  _timeSignatureNumerator : Q;
  _timeSignatureDenominator : Q;
  _subdivision : Q;
  _loop : bool;
  _isPlaying : bool;
  _isPaused : bool;
  _playbackTime : Q;
  _currentCellIndex : Z;
  _nextCellTime : Q;
  _lookAheadTime : Q;
  _scheduledSources : list Source;
  nextSourceId : nat
}.

(** The inner [track.cells.forEach] of [_getMaxColumns], in the insertion
    order of the cell map. *)
Definition scanCells (max : Z) (cells : list (Z * AudioBuffer)) : Z :=
  fold_left
    (fun max cell => if (cell.1 >=? max)%Z then (cell.1 + 1)%Z else max)
    cells max.

Definition _getMaxColumns (p : Player) : Z :=
  fold_left (fun max entry => scanCells max (cells entry.2)) (_tracks p) 0%Z.

End V1.

(** ** Well-formed states

    What the setters' argument checks and the [Map] discipline maintain. *)
Record wellFormed (p : Player) : Prop := mkWellFormed {
  wf_keys : NoDup (_tracks p).*1;
  wf_bpm : 0 < _bpm p;
  wf_numerator : 0 < _timeSignatureNumerator p;
  wf_denominator : 0 < _timeSignatureDenominator p;
  wf_subdivision : supportedSubdivision (_subdivisionNoteValue p) = true;
  wf_flags : _isPlaying p && _isPaused p = false;
  wf_lookAhead : 0 <= _lookAheadTime p
}.

(** ** Observations used by the further properties *)

(** The placement the player holds for a track and a column, if any. *)
Definition cellAt (trackId : string) (columnIndex : Z) (p : Player)
  : option Placement :=
  Map_get trackId (_tracks p) ≫= fun track => cells track !! columnIndex.

(** The tempo, the meter, the loop flag, the look-ahead, the master gain and
    the track registry of [p'] are those of [p]. *)
Definition sameSetup (p p' : Player) : Prop :=
  masterGain p' = masterGain p /\
  _tracks p' = _tracks p /\
  _bpm p' = _bpm p /\
  _timeSignatureNumerator p' = _timeSignatureNumerator p /\
  _timeSignatureDenominator p' = _timeSignatureDenominator p /\
  _subdivisionNoteValue p' = _subdivisionNoteValue p /\
  _loop p' = _loop p /\
  _lookAheadTime p' = _lookAheadTime p.

Definition inUnit (v : Q) : Prop := 0 <= v <= 1.

(** Every gain the player has handed to a gain node, and every stored
    restore-volume, lies in [0, 1]. *)
Definition trackInUnit (track : Track) : Prop :=
  inUnit (gain track) /\ inUnit (_lastVolume track).

Definition gainsInUnit (p : Player) : Prop :=
  inUnit (masterGain p) /\
  Forall (fun entry => trackInUnit entry.2) (_tracks p).

(** The column pointer is -1 on a stopped player and always lies in
    [-1, columns per measure). *)
Definition cursorInRange (p : Player) : Prop :=
  (busy p = false -> _currentCellIndex p = (-1)%Z) /\
  (-1 <= _currentCellIndex p)%Z /\
  inject_Z (_currentCellIndex p) < _getMaxColumns p.

(** The operations that name a track, other than [addTrack]. *)
Inductive TrackOp : Type :=
| TRemoveTrack
| TAddAudioToGrid (columnIndex : Z) (audioBuffer : Placement)
| TRemoveAudioFromGrid (columnIndex : Z)
| TSetTrackVolume (volume : Q)
| TSetTrackMuted (isMuted : bool).

Definition onTrack (op : TrackOp) (trackId : string) (p : Player) : Outcome :=
  match op with
  | TRemoveTrack => removeTrack trackId p
  | TAddAudioToGrid c b => addAudioToGrid trackId c b p
  | TRemoveAudioFromGrid c => removeAudioFromGrid trackId c p
  | TSetTrackVolume v => setTrackVolume trackId v p
  | TSetTrackMuted m => setTrackMuted trackId m p
  end.

(** A one-column measure played once: 1/4 with quarter-note cells at 600
    BPM, looping off, a single hit on "kick" at column 0, [play()] at time
    0 and the tick at time 1/20. *)
Definition endingSession : Player :=
  (play 0
     (addAudioToGrid "kick" 0 (Single "kick-open")
        (addTrack "kick"
           (setBPM 600
              (setSubdivisionNoteValue 4
                 (setTimeSignature 1 4
                    (setLooping false initial).1).1).1).1).1).1).1.

Definition endingTick : Outcome :=
  default (endingSession, []) (_scheduleAudio 2 (1 # 20) endingSession).

(** A two-column measure on a loop: 2/4 with quarter-note cells at 600 BPM,
    [play()] at time 0 and the tick at time 1/4. *)
Definition loopSession : Player :=
  (play 0
     (setBPM 600
        (setSubdivisionNoteValue 4 (setTimeSignature 2 4 initial).1).1).1).1.

Definition loopTick : Outcome :=
  default (loopSession, []) (_scheduleAudio 4 (1 # 4) loopSession).

(** The default player (120 BPM, 4/4, sixteenth-note cells of 1/8 s, sixteen
    columns, looping) with one sound on column 4: [play()] at time 0 and the
    tick at time 0, which schedules column 0 and leaves the deadline at
    1/8. *)
Definition startedSession : Player :=
  (default (initial, [])
     (_scheduleAudio 1 0
        (play 0
           (addAudioToGrid "kick" 4 (Single "kick-open")
              (addTrack "kick" initial).1).1).1)).1.

(** The same player after [pause()] at time 1/20, and after [play()] again
    at time 1. *)
Definition pausedSession : Player := (pause (1 # 20) startedSession).1.

Definition resumedSession : Player := (play 1 pausedSession).1.

(** The deadlines announced by [gridCellChanged] in a trace, in lowest
    terms. *)
Definition deadlinesOf (effs : list Effect) : list Q :=
  omap (fun ev => match ev with
                  | EvGridCellChanged _ time => Some (Qred time)
                  | _ => None
                  end) (events effs).

(** * Properties *)

(** ** Comparisons *)

Lemma Qltb_lt a b : Qltb a b = true <-> a < b.
Proof.
  unfold Qltb. rewrite negb_true_iff, <- not_true_iff_false, Qle_bool_iff.
  split; [apply Qnot_le_lt | apply Qlt_not_le].
Qed.

Lemma Qltb_ge a b : Qltb a b = false <-> b <= a.
Proof.
  unfold Qltb. rewrite negb_false_iff. apply Qle_bool_iff.
Qed.

Lemma supportedSubdivision_cases x :
  supportedSubdivision x = true <-> x == 4 \/ x == 8 \/ x == 16 \/ x == 32.
Proof.
  unfold supportedSubdivision. cbn [existsb].
  rewrite !orb_true_iff, !Qeq_bool_iff. intuition discriminate.
Qed.

Lemma supportedSubdivision_pos x : supportedSubdivision x = true -> 0 < x.
Proof.
  rewrite supportedSubdivision_cases. intros [H | [H | [H | H]]]; rewrite H; reflexivity.
Qed.

(** ** Tempo and meter *)

(** C4.  For every BPM > 0 and every subdivision note value among 4, 8, 16
    and 32, the cell duration is 240 / (BPM * S) seconds, whatever the time
    signature is set to. *)
Theorem cellDuration_formula (p : Player) (numerator denominator : Q) :
  0 < _bpm p ->
  supportedSubdivision (_subdivisionNoteValue p) = true ->
  _calculateCellDuration
    (set_timeSignatureDenominator denominator
       (set_timeSignatureNumerator numerator p))
  == 240 / (_bpm p * _subdivisionNoteValue p).
Proof.
  intros Hbpm Hsub. apply supportedSubdivision_pos in Hsub.
  unfold _calculateCellDuration. cbn.
  field. split; intros E; rewrite E in *; discriminate.
Qed.

Lemma cellDuration_formula_witness :
  _calculateCellDuration
    (set_timeSignatureDenominator 8 (set_timeSignatureNumerator 6 initial))
  == 240 / (120 * 16).
Proof.
  apply (cellDuration_formula initial 6 8); reflexivity.
Defined.

Lemma maxColumns_integer (p : Player) (N D S : Z) :
  (0 < D)%Z -> (D | S)%Z ->
  _timeSignatureNumerator p = inject_Z N ->
  _timeSignatureDenominator p = inject_Z D ->
  _subdivisionNoteValue p == inject_Z S ->
  _getMaxColumns p == inject_Z (N * (S / D)).
Proof.
  intros HD [k ->] EN ED ES.
  unfold _getMaxColumns. rewrite EN, ED, ES.
  rewrite Z.div_mul by lia.
  rewrite !inject_Z_mult. field.
  intros E. assert (inject_Z 0 < inject_Z D) as HD' by (rewrite <- Zlt_Qlt; exact HD).
  rewrite E in HD'. discriminate.
Qed.

(** C5.  For integers N > 0 and D > 0 and a subdivision note value S that is
    a multiple of D, the number of columns in a measure is the integer
    N * (S / D). *)
Theorem maxColumns_formula (p : Player) (N D S : Z) :
  (0 < N)%Z -> (0 < D)%Z -> (D | S)%Z ->
  _timeSignatureNumerator p = inject_Z N ->
  _timeSignatureDenominator p = inject_Z D ->
  _subdivisionNoteValue p = inject_Z S ->
  _getMaxColumns p == inject_Z (N * (S / D)).
Proof.
  intros _ HD Hdiv EN ED ES. apply maxColumns_integer; try assumption.
  by rewrite ES.
Qed.

Lemma maxColumns_formula_witness :
  _getMaxColumns
    (set_timeSignatureDenominator 8 (set_timeSignatureNumerator 6 initial))
  == inject_Z (6 * (16 / 8)).
Proof.
  apply (maxColumns_formula _ 6 8 16); try reflexivity.
  exists 2%Z. reflexivity.
Defined.

(** ** The track map *)

Section JSMapFacts.
Context {V : Type}.
Implicit Types (m : list (string * V)) (k : string) (v : V).

Lemma Map_has_true k m : Map_has k m = true <-> is_Some (Map_get k m).
Proof.
  unfold Map_has. destruct (Map_get k m); split; intros H;
    first [done | by eexists | by destruct H].
Qed.

Lemma Map_get_set_eq k v m : Map_get k (Map_set k v m) = Some v.
Proof.
  induction m as [|[k' v'] m IH]; cbn.
  - by rewrite String.eqb_refl.
  - destruct (String.eqb k k') eqn:E; cbn; rewrite E; [done | exact IH].
Qed.

Lemma Map_get_set_ne k k' v m :
  k ≠ k' -> Map_get k' (Map_set k v m) = Map_get k' m.
Proof.
  intros Hne. induction m as [|[k0 v0] m IH]; cbn.
  - destruct (String.eqb_spec k' k); [congruence | done].
  - destruct (String.eqb_spec k k0) as [->|]; cbn.
    + destruct (String.eqb_spec k' k0); [congruence | done].
    + by rewrite IH.
Qed.

Lemma Map_get_elem k v m : Map_get k m = Some v -> (k, v) ∈ m.
Proof.
  induction m as [|[k0 v0] m IH]; cbn; [done |].
  destruct (String.eqb_spec k k0) as [->|].
  - intros [= ->]. left.
  - intros H. right. by apply IH.
Qed.

Lemma Map_get_None k m : Map_get k m = None <-> k ∉ m.*1.
Proof.
  induction m as [|[k0 v0] m IH]; cbn.
  - split; [intros _; apply not_elem_of_nil | done].
  - rewrite not_elem_of_cons. destruct (String.eqb_spec k k0) as [->|].
    + split; [done | intros [? _]; done].
    + rewrite IH. tauto.
Qed.

Lemma Map_set_keys_present k v m :
  is_Some (Map_get k m) -> (Map_set k v m).*1 = m.*1.
Proof.
  induction m as [|[k0 v0] m IH]; cbn.
  - by intros [? ?].
  - destruct (String.eqb_spec k k0) as [->|]; cbn; [done |].
    intros H. by rewrite IH.
Qed.

Lemma Map_set_keys_fresh k v m :
  Map_get k m = None -> (Map_set k v m).*1 = m.*1 ++ [k].
Proof.
  induction m as [|[k0 v0] m IH]; cbn; [done |].
  destruct (String.eqb_spec k k0) as [->|]; cbn; [done |].
  intros H. by rewrite IH.
Qed.

Lemma Map_set_NoDup k v m : NoDup m.*1 -> NoDup (Map_set k v m).*1.
Proof.
  intros Hnd. destruct (Map_get k m) eqn:E.
  - rewrite Map_set_keys_present; [done | by eexists].
  - rewrite Map_set_keys_fresh by done.
    apply NoDup_app. split; [done |]. split.
    + intros x Hx Hk. apply list_elem_of_singleton in Hk as ->.
      by apply Map_get_None in E.
    + apply NoDup_singleton.
Qed.

Lemma Map_delete_keys_sub k m x : x ∈ (Map_delete k m).*1 -> x ∈ m.*1.
Proof.
  induction m as [|[k0 v0] m IH]; cbn; [done |].
  destruct (String.eqb k k0); cbn.
  - intros H. by right.
  - rewrite !elem_of_cons. intros [->|H]; [by left | right; by apply IH].
Qed.

Lemma Map_delete_NoDup k m : NoDup m.*1 -> NoDup (Map_delete k m).*1.
Proof.
  induction m as [|[k0 v0] m IH]; cbn; [done |].
  rewrite NoDup_cons. intros [Hk Hnd].
  destruct (String.eqb k k0); cbn; [done |].
  apply NoDup_cons. split; [| by apply IH].
  intros H. apply Hk. by eapply Map_delete_keys_sub.
Qed.
End JSMapFacts.

(** ** Traces *)

Lemma events_app a b : events (a ++ b) = events a ++ events b.
Proof. apply omap_app. Qed.

Lemma diagnostics_app a b : diagnostics (a ++ b) = diagnostics a ++ diagnostics b.
Proof. apply omap_app. Qed.

Lemma stops_app a b : stops (a ++ b) = stops a ++ stops b.
Proof. apply omap_app. Qed.

Lemma events_stopAll p : events (stopAll p) = [].
Proof. unfold stopAll. induction (_scheduledSources p); cbn; auto. Qed.

Lemma stops_stopAll p : stops (stopAll p) = _scheduledSources p.
Proof.
  unfold stopAll. induction (_scheduledSources p) as [|s l IH]; [done |].
  cbn. unfold stops in IH. by rewrite IH.
Qed.

Lemma diagnostics_stopAll p : diagnostics (stopAll p) = [].
Proof. unfold stopAll. induction (_scheduledSources p); cbn; auto. Qed.

(** ** State guards *)

(** C1, as stated, fails for [addTrack]: called on a playing player with a
    fresh id, it adds the track and dispatches [trackAdded]. *)
Lemma addTrack_while_playing :
  let p := (play 0 initial).1 in
  busy p = true /\
  ~ rejected p (invoke (OpAddTrack "kick") p) /\
  (invoke (OpAddTrack "kick") p).2 = [Dispatch (EvTrackAdded "kick")].
Proof.
  cbn zeta. split; [reflexivity |]. split; [| reflexivity].
  intros [H _]. apply (f_equal _tracks) in H. discriminate H.
Qed.

(** C1, amended.  Each of setBPM, setTimeSignature, setSubdivisionNoteValue,
    removeTrack, addAudioToGrid and removeAudioFromGrid, called while the
    player is Playing or Paused, returns the state it was given, reports
    exactly one warning and dispatches no event.  addTrack is not guarded by
    the transport state: whenever the id is fresh it registers a new track
    and dispatches [trackAdded]. *)
Theorem stopped_only_guard (op : StoppedOnly) (p : Player) :
  busy p = true ->
  (isAddTrack op = false ->
   rejected p (invoke op p) /\
   exists msg, (invoke op p).2 = [ConsoleWarn msg]) /\
  (forall trackId,
      Map_has trackId (_tracks p) = false ->
      Map_get trackId (_tracks (addTrack trackId p).1) = Some newTrack /\
      (addTrack trackId p).2 = [Dispatch (EvTrackAdded trackId)]).
Proof.
  unfold busy. intros Hbusy. split.
  - destruct op; cbn [isAddTrack invoke]; intros Hop; try discriminate Hop;
      unfold rejected, setBPM, setTimeSignature, setSubdivisionNoteValue,
        removeTrack, addAudioToGrid, removeAudioFromGrid;
      rewrite Hbusy; cbn; (split; [done | by eexists]).
  - intros t Hfresh. unfold addTrack. rewrite Hfresh. cbn.
    split; [apply Map_get_set_eq | done].
Qed.

Lemma stopped_only_guard_witness :
  rejected (play 0 initial).1 (invoke (OpSetBPM 160) (play 0 initial).1) /\
  exists msg, (invoke (OpSetBPM 160) (play 0 initial).1).2 = [ConsoleWarn msg].
Proof.
  apply (stopped_only_guard (OpSetBPM 160) (play 0 initial).1); reflexivity.
Defined.

(** C10.  In every state, [addTrack] with an id already in the registry
    returns the state it was given (so the existing track keeps its cells,
    gain and mute flag), reports one warning and dispatches no event. *)
Theorem addTrack_duplicate (trackId : string) (track : Track) (p : Player) :
  Map_get trackId (_tracks p) = Some track ->
  (addTrack trackId p).1 = p /\
  Map_get trackId (_tracks (addTrack trackId p).1) = Some track /\
  diagnostics (addTrack trackId p).2
    = ["Track with ID '" +:+ trackId +:+ "' already exists."] /\
  events (addTrack trackId p).2 = [].
Proof.
  intros Hget. unfold addTrack, Map_has. rewrite Hget. cbn. done.
Qed.

Lemma addTrack_duplicate_witness :
  (addTrack "snare" (addTrack "snare" initial).1).1 = (addTrack "snare" initial).1 /\
  Map_get "snare" (_tracks (addTrack "snare" (addTrack "snare" initial).1).1)
    = Some newTrack /\
  diagnostics (addTrack "snare" (addTrack "snare" initial).1).2
    = ["Track with ID 'snare' already exists."] /\
  events (addTrack "snare" (addTrack "snare" initial).1).2 = [].
Proof.
  apply (addTrack_duplicate "snare" newTrack (addTrack "snare" initial).1).
  reflexivity.
Defined.

(** ** Transport *)

Lemma stop_when_stopped p : busy p = false -> stop p = (p, []).
Proof.
  unfold busy, stop. intros H. apply orb_false_elim in H as [-> ->]. done.
Qed.

Lemma stop_events p :
  busy p = true ->
  events (stop p).2 = [EvStop; EvGridCellChanged (-1)%Z 0].
Proof.
  unfold busy, stop. intros H.
  destruct (_isPlaying p), (_isPaused p); try discriminate H; cbn [negb andb snd];
    by rewrite events_app, events_stopAll.
Qed.

Lemma stop_lands_stopped p : busy (stop p).1 = false.
Proof.
  unfold busy, stop.
  destruct (_isPlaying p) eqn:E1, (_isPaused p) eqn:E2; cbn; try done.
  by rewrite E1, E2.
Qed.

(** C8.  From Playing or Paused, the first [stop()] dispatches [stop] and
    then [gridCellChanged] with column -1 and nothing else, sets the column
    pointer to -1 and the elapsed position to 0 and leaves the player
    Stopped; a second [stop()] returns the same state and emits nothing, so
    the two calls together dispatch each of the two events exactly once.
    [stop()] on a Stopped player is a no-op. *)
Theorem stop_idempotent (p : Player) :
  busy p = true ->
  let first := stop p in
  let second := stop first.1 in
  events first.2 = [EvStop; EvGridCellChanged (-1)%Z 0] /\
  _currentCellIndex first.1 = (-1)%Z /\
  _playbackTime first.1 = 0 /\
  getStatus first.1 = (false, false) /\
  second = (first.1, []) /\
  events (first.2 ++ second.2) = [EvStop; EvGridCellChanged (-1)%Z 0] /\
  (forall q, getStatus q = (false, false) -> stop q = (q, [])).
Proof.
  intros Hbusy first second.
  assert (second = (first.1, [])) as Hsecond
    by (apply stop_when_stopped, stop_lands_stopped).
  split; [by apply stop_events |].
  repeat split.
  - unfold first, stop, busy in *.
    destruct (_isPlaying p), (_isPaused p); try discriminate Hbusy; done.
  - unfold first, stop, busy in *.
    destruct (_isPlaying p), (_isPaused p); try discriminate Hbusy; done.
  - pose proof (stop_lands_stopped p) as H. unfold busy in H.
    apply orb_false_elim in H as [H1 H2]. unfold getStatus.
    fold first in H1, H2. by rewrite H1, H2.
  - exact Hsecond.
  - rewrite Hsecond. cbn [snd]. rewrite app_nil_r. by apply stop_events.
  - intros q [= H1 H2]. apply stop_when_stopped. unfold busy. by rewrite H1, H2.
Qed.

Lemma stop_idempotent_witness :
  let first := stop (play 0 initial).1 in
  let second := stop first.1 in
  events first.2 = [EvStop; EvGridCellChanged (-1)%Z 0] /\
  _currentCellIndex first.1 = (-1)%Z /\
  _playbackTime first.1 = 0 /\
  getStatus first.1 = (false, false) /\
  second = (first.1, []) /\
  events (first.2 ++ second.2) = [EvStop; EvGridCellChanged (-1)%Z 0] /\
  (forall q, getStatus q = (false, false) -> stop q = (q, [])).
Proof.
  apply (stop_idempotent (play 0 initial).1). reflexivity.
Defined.

(** What [pause()] and a following [play()] write.  [pause()] on a playing
    player calls [stop()] on every in-flight source and empties the set,
    stores the elapsed position (clamped at 0) in [_playbackTime], leaves the
    player Paused and dispatches [pause]; a following [play()] only switches
    to Playing and dispatches [play]: it reads neither the stored position
    nor the clock, and leaves the column pointer and the next-cell deadline
    as they were.  [pause()] on a player that is not playing is a no-op. *)
Lemma pause_then_resume (p : Player) (now later : Q) :
  _isPlaying p = true ->
  let paused := pause now p in
  let resumed := play later paused.1 in
  stops paused.2 = _scheduledSources p /\
  _scheduledSources paused.1 = [] /\
  getStatus paused.1 = (false, true) /\
  _playbackTime paused.1
    == Qmax 0 (inject_Z (_currentCellIndex p) * _calculateCellDuration p
               + (now - (_nextCellTime p - _calculateCellDuration p))) /\
  events paused.2 = [EvPause] /\
  getStatus resumed.1 = (true, false) /\
  _currentCellIndex resumed.1 = _currentCellIndex p /\
  _nextCellTime resumed.1 = _nextCellTime p /\
  _playbackTime resumed.1 = _playbackTime paused.1 /\
  resumed.2 = [Dispatch EvPlay] /\
  (forall q t, _isPlaying q = false -> pause t q = (q, [])).
Proof.
  intros Hplaying paused resumed.
  unfold resumed, paused, pause, play. rewrite Hplaying.
  cbn -[stopAll Qmax Qltb Qplus Qminus Qmult Qdiv].
  repeat split; try reflexivity.
  - rewrite stops_app. cbn -[stopAll]. rewrite app_nil_r, stops_stopAll. reflexivity.
  - unfold _calculateCellDuration. cbn -[Qmax Qltb Qplus Qminus Qmult Qdiv].
    set (t := _ + _).
    destruct (Qltb t 0) eqn:E.
    + apply Qltb_lt in E. symmetry. apply Q.max_l. by apply Qlt_le_weak.
    + apply Qltb_ge in E. symmetry. by apply Q.max_r.
  - rewrite events_app. cbn -[stopAll]. by rewrite events_stopAll.
  - intros q t Hq. unfold pause. by rewrite Hq.
Qed.

(** C3.  The code at the failing input: the default player with a sound on
    column 4, [play()] at time 0, one tick, [pause()] at time 1/20 and
    [play()] again at time 1.  [pause()] stores the position 1/20, but
    nothing reads it: the deadline stays at the clock time 1/8 computed
    before the pause, so the first tick after the resume announces columns 1
    to 8 in one go, with deadlines from 1/8 to 1 that the clock has already
    passed, and starts the sound of column 4 for the time 1/2.  That is the
    very trace of the player that was never paused: the position was not
    held during the pause. *)
Theorem resume_replays_missed_columns :
  getStatus pausedSession = (false, true) /\
  _currentCellIndex pausedSession = 0%Z /\
  _playbackTime pausedSession == 1 # 20 /\
  _nextCellTime pausedSession == 1 # 8 /\
  getStatus resumedSession = (true, false) /\
  _currentCellIndex resumedSession = 0%Z /\
  _playbackTime resumedSession = _playbackTime pausedSession /\
  _nextCellTime resumedSession = _nextCellTime pausedSession /\
  exists p' effs when,
    _scheduleAudio 8 1 resumedSession = Some (p', effs) /\
    columnsOf effs = [1; 2; 3; 4; 5; 6; 7; 8]%Z /\
    deadlinesOf effs
    = [1 # 8; 1 # 4; 3 # 8; 1 # 2; 5 # 8; 3 # 4; 7 # 8; 1] /\
    triggersOf "kick" effs = [(Single "kick-open", when)] /\
    when == 1 # 2 /\
    option_map snd (_scheduleAudio 8 1 startedSession) = Some effs.
Proof.
  split; [vm_compute; reflexivity |]. split; [vm_compute; reflexivity |].
  split; [vm_compute; reflexivity |]. split; [vm_compute; reflexivity |].
  split; [vm_compute; reflexivity |]. split; [vm_compute; reflexivity |].
  split; [vm_compute; reflexivity |]. split; [vm_compute; reflexivity |].
  exists (default (initial, []) (_scheduleAudio 8 1 resumedSession)).1,
         (default (initial, []) (_scheduleAudio 8 1 resumedSession)).2.
  eexists.
  split; [vm_compute; reflexivity |]. split; [vm_compute; reflexivity |].
  split; [vm_compute; reflexivity |]. split; [vm_compute; reflexivity |].
  split; vm_compute; reflexivity.
Qed.

(** ** Gains *)

Lemma outOfUnit_false v : 0 <= v <= 1 -> outOfUnit v = false.
Proof.
  intros [H0 H1]. unfold outOfUnit.
  apply orb_false_intro; by apply Qltb_ge.
Qed.

Lemma setTrackVolume_get trackId v p track :
  Map_get trackId (_tracks p) = Some track ->
  let v' := if outOfUnit v then clamp01 v else v in
  Map_get trackId (_tracks (setTrackVolume trackId v p).1)
  = Some (track_set_lastVolume v'
            (if negb (_isMuted track) then track_set_gain v' track else track)).
Proof.
  intros H. unfold setTrackVolume. rewrite H. cbn. apply Map_get_set_eq.
Qed.

Lemma setTrackMuted_get trackId isMuted p track :
  Map_get trackId (_tracks p) = Some track ->
  Map_get trackId (_tracks (setTrackMuted trackId isMuted p).1)
  = Some (if isMuted then track_set_gain 0 (track_set_isMuted true track)
          else track_set_gain (_lastVolume track)
                 (track_set_isMuted false track)).
Proof.
  intros H. unfold setTrackMuted. rewrite H. cbn. rewrite Map_get_set_eq.
  by destruct isMuted.
Qed.

(** C7.  For an existing track and a volume v in [0, 1]: after
    [setTrackVolume(t, v)] and [setTrackMuted(t, true)] the gain of the track
    is 0 while the stored restore-volume is still v, and after
    [setTrackMuted(t, false)] the gain is v again, exactly. *)
Theorem mute_restore (trackId : string) (v : Q) (p : Player) :
  Map_has trackId (_tracks p) = true ->
  0 <= v <= 1 ->
  let p1 := (setTrackVolume trackId v p).1 in
  let p2 := (setTrackMuted trackId true p1).1 in
  let p3 := (setTrackMuted trackId false p2).1 in
  trackGain trackId p2 = Some 0 /\
  _lastVolume <$> Map_get trackId (_tracks p2) = Some v /\
  trackGain trackId p3 = Some v.
Proof.
  intros Hhas Hv p1 p2 p3. apply Map_has_true in Hhas as [track Htrack].
  pose proof (setTrackVolume_get trackId v p track Htrack) as H1.
  rewrite (outOfUnit_false v Hv) in H1. cbn zeta in H1. fold p1 in H1.
  pose proof (setTrackMuted_get trackId true p1 _ H1) as H2. fold p2 in H2.
  pose proof (setTrackMuted_get trackId false p2 _ H2) as H3. fold p3 in H3.
  unfold trackGain. rewrite H2, H3. by destruct (_isMuted track).
Qed.

Lemma mute_restore_witness :
  let p := (addTrack "iya" initial).1 in
  let p1 := (setTrackVolume "iya" (6 # 10) p).1 in
  let p2 := (setTrackMuted "iya" true p1).1 in
  let p3 := (setTrackMuted "iya" false p2).1 in
  trackGain "iya" p2 = Some 0 /\
  _lastVolume <$> Map_get "iya" (_tracks p2) = Some (6 # 10) /\
  trackGain "iya" p3 = Some (6 # 10).
Proof.
  apply (mute_restore "iya" (6 # 10) (addTrack "iya" initial).1).
  - reflexivity.
  - split; discriminate.
Defined.

(** ** Invariants of reachable states *)

Lemma wellFormed_initial : wellFormed initial.
Proof.
  constructor; cbn; try done. apply NoDup_nil_2.
Qed.

Ltac wf_split H :=
  destruct H as [Hkeys Hbpm Hnum Hden Hsub Hflags Hlook];
  constructor; cbn; try assumption; try reflexivity.

Lemma play_wellFormed now p : wellFormed p -> wellFormed (play now p).1.
Proof.
  intros H. unfold play.
  destruct (_isPlaying p) eqn:E1; [exact H |].
  destruct (_isPaused p) eqn:E2; wf_split H.
Qed.

Lemma pause_wellFormed now p : wellFormed p -> wellFormed (pause now p).1.
Proof.
  intros H. unfold pause.
  destruct (_isPlaying p) eqn:E1; [| exact H]. wf_split H.
Qed.

Lemma stop_wellFormed p : wellFormed p -> wellFormed (stop p).1.
Proof.
  intros H. unfold stop.
  destruct (negb (_isPlaying p) && negb (_isPaused p)); [exact H |].
  wf_split H.
Qed.

Lemma setBPM_wellFormed bpm p : wellFormed p -> wellFormed (setBPM bpm p).1.
Proof.
  intros H. unfold setBPM.
  destruct (_isPlaying p || _isPaused p); [exact H |].
  destruct (Qle_bool bpm 0) eqn:E; [exact H |].
  wf_split H. by apply (Qltb_lt 0 bpm), negb_true_iff.
Qed.

Lemma setTimeSignature_wellFormed n d p :
  wellFormed p -> wellFormed (setTimeSignature n d p).1.
Proof.
  intros H. unfold setTimeSignature.
  destruct (_isPlaying p || _isPaused p); [exact H |].
  destruct (Qle_bool n 0) eqn:En; [exact H |].
  destruct (Qle_bool d 0) eqn:Ed; [exact H |].
  wf_split H; [by apply (Qltb_lt 0 n), negb_true_iff
              | by apply (Qltb_lt 0 d), negb_true_iff].
Qed.

Lemma setSubdivisionNoteValue_wellFormed v p :
  wellFormed p -> wellFormed (setSubdivisionNoteValue v p).1.
Proof.
  intros H. unfold setSubdivisionNoteValue.
  destruct (_isPlaying p || _isPaused p); [exact H |].
  destruct (supportedSubdivision v) eqn:E; [| exact H].
  wf_split H.
Qed.

Lemma setLooping_wellFormed l p : wellFormed p -> wellFormed (setLooping l p).1.
Proof. intros H. unfold setLooping. wf_split H. Qed.

Lemma addTrack_wellFormed t p : wellFormed p -> wellFormed (addTrack t p).1.
Proof.
  intros H. unfold addTrack. destruct (Map_has t (_tracks p)); [exact H |].
  wf_split H. by apply Map_set_NoDup.
Qed.

Lemma removeTrack_wellFormed t p : wellFormed p -> wellFormed (removeTrack t p).1.
Proof.
  intros H. unfold removeTrack.
  destruct (_isPlaying p || _isPaused p); [exact H |].
  destruct (Map_has t (_tracks p)); [| exact H].
  wf_split H. by apply Map_delete_NoDup.
Qed.

Lemma addAudioToGrid_wellFormed t c b p :
  wellFormed p -> wellFormed (addAudioToGrid t c b p).1.
Proof.
  intros H. unfold addAudioToGrid.
  destruct (_isPlaying p || _isPaused p); [exact H |].
  destruct (Map_get t (_tracks p)); [| exact H].
  destruct (c <? 0)%Z; [exact H |].
  wf_split H. by apply Map_set_NoDup.
Qed.

Lemma removeAudioFromGrid_wellFormed t c p :
  wellFormed p -> wellFormed (removeAudioFromGrid t c p).1.
Proof.
  intros H. unfold removeAudioFromGrid.
  destruct (_isPlaying p || _isPaused p); [exact H |].
  destruct (Map_get t (_tracks p)) as [track|]; [| exact H].
  destruct (cells track !! c); [| exact H].
  wf_split H. by apply Map_set_NoDup.
Qed.

Lemma setTrackVolume_wellFormed t v p :
  wellFormed p -> wellFormed (setTrackVolume t v p).1.
Proof.
  intros H. unfold setTrackVolume.
  destruct (Map_get t (_tracks p)); [| exact H].
  wf_split H. by apply Map_set_NoDup.
Qed.

Lemma setTrackMuted_wellFormed t m p :
  wellFormed p -> wellFormed (setTrackMuted t m p).1.
Proof.
  intros H. unfold setTrackMuted.
  destruct (Map_get t (_tracks p)); [| exact H].
  wf_split H. by apply Map_set_NoDup.
Qed.

Lemma setMasterVolume_wellFormed v p :
  wellFormed p -> wellFormed (setMasterVolume v p).1.
Proof. intros H. unfold setMasterVolume. wf_split H. Qed.

Lemma sourceEnded_wellFormed id p : wellFormed p -> wellFormed (sourceEnded id p).1.
Proof. intros H. unfold sourceEnded. wf_split H. Qed.

Lemma scheduleCell_wellFormed cd mc p :
  wellFormed p -> wellFormed (scheduleCell cd mc p).2.1.
Proof.
  intros H. unfold scheduleCell.
  destruct (_ && negb _).
  - cbn [fst snd]. apply stop_wellFormed. wf_split H.
  - destruct (_ && _); destruct (scheduleTracks _ _ _ _).2; cbn [fst snd];
      wf_split H.
Qed.

Lemma scheduleLoop_wellFormed fuel now cd mc p p' effs :
  scheduleLoop fuel now cd mc p = Some (p', effs) ->
  wellFormed p -> wellFormed p'.
Proof.
  revert p p' effs. induction fuel as [|fuel IH]; intros p p' effs; cbn.
  - destruct (Qltb _ _); [done |]. by intros [= <- _].
  - destruct (Qltb _ _); [| by intros [= <- _]].
    pose proof (scheduleCell_wellFormed cd mc p) as Hcell.
    destruct (scheduleCell cd mc p) as [[] [p1 effs1]]; cbn [fst snd] in Hcell.
    + destruct (scheduleLoop fuel now cd mc p1) as [[p2 effs2]|] eqn:E; [| done].
      intros [= <- _] Hp. eapply IH; eauto.
    + intros [= <- _] Hp. auto.
    + intros [= <- _] Hp. auto.
Qed.

Lemma Some_outcome_fst (out : Outcome) p' effs :
  Some out = Some (p', effs) -> out.1 = p'.
Proof. by intros [= ->]. Qed.

Lemma perform_wellFormed c p p' effs :
  perform c p = Some (p', effs) -> wellFormed p -> wellFormed p'.
Proof.
  destruct c; cbn [perform];
    try (intros E%Some_outcome_fst Hp; subst p').
  - by apply play_wellFormed.
  - by apply pause_wellFormed.
  - by apply stop_wellFormed.
  - by apply setBPM_wellFormed.
  - by apply setTimeSignature_wellFormed.
  - by apply setSubdivisionNoteValue_wellFormed.
  - by apply setLooping_wellFormed.
  - by apply addTrack_wellFormed.
  - by apply removeTrack_wellFormed.
  - by apply addAudioToGrid_wellFormed.
  - by apply removeAudioFromGrid_wellFormed.
  - by apply setTrackVolume_wellFormed.
  - by apply setTrackMuted_wellFormed.
  - by apply setMasterVolume_wellFormed.
  - unfold _scheduleAudio. destruct (negb (_isPlaying p)).
    + by intros [= <- _].
    + apply scheduleLoop_wellFormed.
  - by apply sourceEnded_wellFormed.
Qed.

Lemma reachable_wellFormed p : reachable p -> wellFormed p.
Proof.
  induction 1 as [|c p p' effs _ IH Hstep].
  - apply wellFormed_initial.
  - by eapply perform_wellFormed.
Qed.

(** ** With exact arithmetic the scheduler tick returns *)

Lemma cellDuration_pos p : wellFormed p -> 0 < _calculateCellDuration p.
Proof.
  intros H. pose proof (wf_bpm p H) as Hbpm.
  pose proof (supportedSubdivision_pos _ (wf_subdivision p H)) as Hsub.
  unfold _calculateCellDuration. cbn zeta.
  apply Qlt_shift_div_l; [exact Hsub |].
  apply Qlt_shift_div_l; [exact Hbpm |]. rewrite !Qmult_0_l. reflexivity.
Qed.

Lemma scheduleCell_continue cd mc p p1 effs :
  scheduleCell cd mc p = (Continue, (p1, effs)) ->
  _nextCellTime p1 = _nextCellTime p + cd /\
  _lookAheadTime p1 = _lookAheadTime p.
Proof.
  unfold scheduleCell. destruct (_ && negb _); [done |].
  destruct (_ && _); destruct (scheduleTracks _ _ _ _).2; try done;
    by intros [= <- _].
Qed.

Lemma scheduleLoop_enough_fuel now cd mc :
  0 < cd ->
  forall fuel p,
    now + _lookAheadTime p - _nextCellTime p <= inject_Z (Z.of_nat fuel) * cd ->
    exists out, scheduleLoop fuel now cd mc p = Some out.
Proof.
  intros Hcd. induction fuel as [|fuel IH]; intros p Hfuel.
  - cbn [scheduleLoop]. destruct (Qltb _ _) eqn:E; [| by eexists].
    apply Qltb_lt in E. change (inject_Z (Z.of_nat 0)) with 0 in Hfuel. lra.
  - cbn [scheduleLoop]. destruct (Qltb _ _) eqn:E; [| by eexists].
    destruct (scheduleCell cd mc p) as [[] [p1 effs1]] eqn:Ecell;
      [| by eexists | by eexists].
    apply scheduleCell_continue in Ecell as [Hnext Hlook].
    destruct (IH p1) as [[p2 effs2] ->]; [| by eexists].
    rewrite Hnext, Hlook.
    rewrite Nat2Z.inj_succ, <- Z.add_1_r, inject_Z_plus in Hfuel.
    change (inject_Z 1) with 1 in Hfuel. lra.
Qed.

Lemma fuel_exists (x cd : Q) :
  0 < cd -> exists fuel : nat, x <= inject_Z (Z.of_nat fuel) * cd.
Proof.
  intros Hcd. exists (Z.to_nat (Qceiling (x / cd))).
  assert (x / cd <= inject_Z (Z.of_nat (Z.to_nat (Qceiling (x / cd))))) as H.
  { eapply Qle_trans; [apply Qle_ceiling |].
    rewrite <- Zle_Qle. lia. }
  apply (Qmult_le_compat_r _ _ cd) in H; [| by apply Qlt_le_weak].
  eapply Qle_trans; [| exact H].
  apply Qle_lteq. right. field. intros E. rewrite E in Hcd. discriminate.
Qed.

Lemma scheduleLoop_more_fuel now cd mc fuel : forall p out,
  scheduleLoop fuel now cd mc p = Some out ->
  scheduleLoop (S fuel) now cd mc p = Some out.
Proof.
  induction fuel as [|fuel IH]; intros p out.
  - cbn [scheduleLoop]. by destruct (Qltb _ _).
  - intros H. change (scheduleLoop (S (S fuel)) now cd mc p) with
      (if Qltb (_nextCellTime p) (now + _lookAheadTime p) then
         match scheduleCell cd mc p with
         | (Return, out) | (Throw, out) => Some out
         | (Continue, (p1, effs1)) =>
             match scheduleLoop (S fuel) now cd mc p1 with
             | Some (p2, effs2) => Some (p2, effs1 ++ effs2)
             | None => None
             end
         end
       else Some (p, [])).
    cbn [scheduleLoop] in H.
    destruct (Qltb _ _); [| exact H].
    destruct (scheduleCell cd mc p) as [[] [p1 effs1]]; [| exact H | exact H].
    destruct (scheduleLoop fuel now cd mc p1) as [out1|] eqn:E; [| done].
    by rewrite (IH _ _ E).
Qed.

Lemma scheduleAudio_total p now :
  wellFormed p -> exists fuel out, _scheduleAudio fuel now p = Some out.
Proof.
  intros H. unfold _scheduleAudio.
  destruct (negb (_isPlaying p)); [by exists O; eexists |].
  destruct (fuel_exists (now + _lookAheadTime p - _nextCellTime p)
              (_calculateCellDuration p) (cellDuration_pos p H)) as [fuel Hfuel].
  exists fuel. by apply scheduleLoop_enough_fuel; [apply cellDuration_pos |].
Qed.

Lemma reachable_tick_returns p now :
  reachable p -> exists fuel out, _scheduleAudio fuel now p = Some out.
Proof. intros H. by apply scheduleAudio_total, reachable_wellFormed. Qed.

(** ** The three-way partition *)

(** C9.  In every state reachable from the constructor's state by any
    sequence of calls (the public methods, scheduler ticks and source
    completion callbacks), [isPlaying] and [isPaused] are not both true, so
    [getStatus()] shows exactly one of Stopped, Playing and Paused. *)
Theorem status_partition (p : Player) :
  reachable p ->
  _isPlaying p && _isPaused p = false /\
  exists st : Status, status_of p = Some st.
Proof.
  intros H%reachable_wellFormed. pose proof (wf_flags p H) as Hflags.
  split; [exact Hflags |]. unfold status_of, getStatus.
  destruct (_isPlaying p), (_isPaused p); try discriminate Hflags; by eexists.
Qed.

Lemma status_partition_witness :
  _isPlaying (pause 2 (play 0 initial).1).1
    && _isPaused (pause 2 (play 0 initial).1).1 = false /\
  exists st : Status, status_of (pause 2 (play 0 initial).1).1 = Some st.
Proof.
  apply (status_partition (pause 2 (play 0 initial).1).1).
  apply (reach_call (CPause 2) (play 0 initial).1 _ (pause 2 (play 0 initial).1).2).
  - apply (reach_call (CPlay 0) initial _ (play 0 initial).2).
    + apply reach_initial.
    + vm_compute. reflexivity.
  - vm_compute. reflexivity.
Defined.

(** ** Triggers of one scheduled column *)

Lemma scheduleTracks_absent idx when fresh tracks trackId :
  trackId ∉ tracks.*1 ->
  filter (fun s => src_track s = trackId)
    (scheduleTracks idx when fresh tracks).1
  = [].
Proof.
  revert fresh. induction tracks as [|[k t] tracks IH]; intros fresh;
    cbn [scheduleTracks fmap list_fmap fst]; [done |].
  rewrite not_elem_of_cons. intros [Hne Hnotin].
  destruct (negb (_isMuted t)); [| by apply IH].
  destruct (cells t !! idx) as [b|]; [| by apply IH].
  destruct (isAudioBuffer b); [| done]. cbn [fst].
  rewrite filter_cons_False by (cbn; congruence). by apply IH.
Qed.

(** When the iteration over the tracks runs to its end, every track gets
    exactly the trigger of its cell, if it is unmuted and has one. *)
Lemma scheduleTracks_track idx when tracks :
  NoDup tracks.*1 ->
  forall fresh trackId track,
    (scheduleTracks idx when fresh tracks).2 = false ->
    Map_get trackId tracks = Some track ->
    trigger <$> filter (fun s => src_track s = trackId)
                  (scheduleTracks idx when fresh tracks).1
    = if _isMuted track then []
      else match cells track !! idx with
           | Some audioBuffer => [(audioBuffer, when)]
           | None => []
           end.
Proof.
  induction tracks as [|[k t] tracks IH]; cbn [fmap list_fmap fst];
    intros Hnd fresh trackId track; cbn [Map_get scheduleTracks]; [done |].
  apply NoDup_cons in Hnd as [Hk Hnd].
  destruct (String.eqb_spec trackId k) as [->|Hne].
  - intros Hthrew [= ->]. destruct (_isMuted track); cbn [negb] in *.
    + by rewrite scheduleTracks_absent.
    + destruct (cells track !! idx) as [b|].
      * destruct (isAudioBuffer b); [| done]. cbn [fst].
        rewrite filter_cons_True by done.
        by rewrite scheduleTracks_absent.
      * by rewrite scheduleTracks_absent.
  - intros Hthrew Hget. destruct (negb (_isMuted t)); [| by apply IH].
    destruct (cells t !! idx) as [b|]; [| by apply IH].
    destruct (isAudioBuffer b); [| done]. cbn [fst snd] in *.
    rewrite filter_cons_False by (cbn; congruence). by apply IH.
Qed.

(** When the iteration meets a Combined cell on an unmuted track, it is cut
    short there: that track gets no trigger. *)
Lemma scheduleTracks_refused idx when tracks :
  NoDup tracks.*1 ->
  forall fresh trackId track o s m,
    Map_get trackId tracks = Some track ->
    _isMuted track = false ->
    cells track !! idx = Some (Combined o s m) ->
    (scheduleTracks idx when fresh tracks).2 = true /\
    filter (fun s => src_track s = trackId)
      (scheduleTracks idx when fresh tracks).1 = [].
Proof.
  induction tracks as [|[k t] tracks IH]; cbn [fmap list_fmap fst];
    intros Hnd fresh trackId track o s m; cbn [Map_get scheduleTracks];
    [done |].
  apply NoDup_cons in Hnd as [Hk Hnd].
  destruct (String.eqb_spec trackId k) as [->|Hne].
  - intros [= ->] -> ->. by cbn.
  - intros Hget Hm Hc.
    destruct (negb (_isMuted t)); [| by eapply IH].
    destruct (cells t !! idx) as [b|]; [| by eapply IH].
    destruct (isAudioBuffer b); [| done]. cbn [fst snd].
    destruct (IH Hnd (S fresh) _ _ _ _ _ Hget Hm Hc) as [Ht Hf].
    split; [done |]. by rewrite filter_cons_False by (cbn; congruence).
Qed.

Lemma starts_map_SourceStart l : starts (map SourceStart l) = l.
Proof. induction l as [|s l IH]; [done |]. cbn. unfold starts in IH. by rewrite IH. Qed.

Lemma starts_cons_Dispatch ev effs : starts (Dispatch ev :: effs) = starts effs.
Proof. reflexivity. Qed.

Lemma starts_app a b : starts (a ++ b) = starts a ++ starts b.
Proof. apply omap_app. Qed.

(** The shape of a pass that does not end in [stop()]. *)
Lemma scheduleCell_scheduled cd mc p flow p' effs :
  scheduleCell cd mc p = (flow, (p', effs)) ->
  flow ≠ Return ->
  let scheduled :=
    scheduleTracks (_currentCellIndex p') (_nextCellTime p) (nextSourceId p)
      (_tracks p) in
  flow = (if scheduled.2 then Throw else Continue) /\
  _nextCellTime p'
  = (if scheduled.2 then _nextCellTime p else _nextCellTime p + cd) /\
  _scheduledSources p' = _scheduledSources p ++ scheduled.1 /\
  effs
  = Dispatch (EvGridCellChanged (_currentCellIndex p') (_nextCellTime p))
    :: map SourceStart scheduled.1
    ++ (if scheduled.2 then [Uncaught "TypeError"] else []).
Proof.
  unfold scheduleCell. destruct (_ && negb _); [by intros [= <- _] |].
  destruct (_ && _);
    cbn [_currentCellIndex _nextCellTime nextSourceId _tracks
           _scheduledSources set_currentCellIndex];
    destruct (scheduleTracks _ _ _ _).2 eqn:E; intros [= <- <- <-] _;
    cbn [_currentCellIndex _nextCellTime _scheduledSources set_nextCellTime
           set_nextSourceId set_scheduledSources set_currentCellIndex];
    rewrite ?E, ?app_nil_r; done.
Qed.

Lemma scheduleCell_starts cd mc p flow p' effs :
  scheduleCell cd mc p = (flow, (p', effs)) ->
  flow ≠ Return ->
  starts effs
  = (scheduleTracks (_currentCellIndex p') (_nextCellTime p) (nextSourceId p)
       (_tracks p)).1.
Proof.
  intros H Hflow.
  destruct (scheduleCell_scheduled _ _ _ _ _ _ H Hflow) as (_ & _ & _ & ->).
  rewrite starts_cons_Dispatch, starts_app, starts_map_SourceStart.
  destruct (scheduleTracks _ _ _ _).2; cbn; by rewrite app_nil_r.
Qed.

(** A Combined placement on an unmuted track, at the column being
    scheduled, never gets a trigger: the pass ends in the [TypeError] of the
    buffer assignment, after [gridCellChanged] and before the deadline is
    advanced. *)
Lemma combined_cell_throws (cd mc : Q) (p p' : Player) (flow : Flow)
    (effs : list Effect) (trackId : string) (track : Track)
    (open slap : AudioBuffer) (slapMultiplier : Q) :
  reachable p ->
  scheduleCell cd mc p = (flow, (p', effs)) ->
  flow ≠ Return ->
  Map_get trackId (_tracks p) = Some track ->
  _isMuted track = false ->
  cells track !! _currentCellIndex p' = Some (Combined open slap slapMultiplier) ->
  flow = Throw /\
  triggersOf trackId effs = [] /\
  _nextCellTime p' = _nextCellTime p /\
  last effs = Some (Uncaught "TypeError").
Proof.
  intros Hreach Hcell Hflow Hget Hm Hc.
  pose proof (wf_keys p (reachable_wellFormed p Hreach)) as Hnd.
  pose proof (scheduleCell_starts _ _ _ _ _ _ Hcell Hflow) as Hstarts.
  destruct (scheduleCell_scheduled _ _ _ _ _ _ Hcell Hflow)
    as (Hf & Hnext & _ & Heffs).
  cbn zeta in Hf, Hnext, Heffs.
  destruct (scheduleTracks_refused _ (_nextCellTime p) _ Hnd (nextSourceId p)
              _ _ _ _ _ Hget Hm Hc) as [Hthrew Hnone].
  rewrite Hthrew in Hf, Hnext, Heffs.
  split; [done |]. split; [| split; [done |]].
  - unfold triggersOf. by rewrite Hstarts, Hnone.
  - rewrite Heffs, app_comm_cons. apply last_snoc.
Qed.

(** C2.  The code at the failing input: the application's combined hit on
    the unmuted track "iya" at column 0.  The first tick dispatches
    [gridCellChanged] for column 0 and then leaves [_scheduleAudio] with the
    [TypeError] of [source.buffer = ...]: no trigger is issued for the cell,
    let alone two, no accent multiplier is applied anywhere, and the stored
    deadline is not advanced. *)
Theorem combined_tick_throws :
  (exists track,
      Map_get "iya" (_tracks combinedSession) = Some track /\
      _isMuted track = false /\
      cells track !! 0%Z = Some (Combined "iya-open" "iya-slap" 3)) /\
  _nextCellTime combinedSession = 0 /\
  exists p',
    _scheduleAudio 1 0 combinedSession
    = Some (p', [Dispatch (EvGridCellChanged 0 0); Uncaught "TypeError"]) /\
    triggersOf "iya" [Dispatch (EvGridCellChanged 0 0); Uncaught "TypeError"]
    = [] /\
    _currentCellIndex p' = 0%Z /\
    _nextCellTime p' = 0 /\
    _isPlaying p' = true.
Proof.
  split; [eexists; split; [vm_compute; reflexivity | split; reflexivity] |].
  split; [reflexivity |].
  exists (default (combinedSession, []) (_scheduleAudio 1 0 combinedSession)).1.
  split; [vm_compute; reflexivity |]. split; [reflexivity |].
  split; [vm_compute; reflexivity |]. split; vm_compute; reflexivity.
Qed.

(** A single placement, by contrast, is triggered as the specification
    says.  When a pass runs to its last statement, every track of the
    registry has got, on its own gain node, exactly one trigger if it is
    unmuted and has a placement at that column, and none otherwise; the
    trigger carries the stored buffer and starts exactly at the stored
    deadline. *)
Lemma one_trigger_per_placement (cd mc : Q) (p p' : Player)
    (effs : list Effect) (trackId : string) (track : Track) :
  reachable p ->
  scheduleCell cd mc p = (Continue, (p', effs)) ->
  Map_get trackId (_tracks p) = Some track ->
  triggersOf trackId effs
  = if _isMuted track then []
    else match cells track !! _currentCellIndex p' with
         | Some audioBuffer => [(audioBuffer, _nextCellTime p)]
         | None => []
         end.
Proof.
  intros Hreach Hcell Hget.
  pose proof (wf_keys p (reachable_wellFormed p Hreach)) as Hnd.
  assert (Continue ≠ Return) as Hflow by done.
  unfold triggersOf. rewrite (scheduleCell_starts _ _ _ _ _ _ Hcell Hflow).
  destruct (scheduleCell_scheduled _ _ _ _ _ _ Hcell Hflow) as (Hf & _).
  cbn zeta in Hf.
  apply scheduleTracks_track; [done | | done].
  by destruct (scheduleTracks _ _ _ _).2.
Qed.

Lemma reachable_run cs : forall p p' effs,
  reachable p -> run cs p = Some (p', effs) -> reachable p'.
Proof.
  induction cs as [|c cs IH]; intros p p' effs Hp; cbn [run].
  - by intros [= <- _].
  - destruct (perform c p) as [[p1 effs1]|] eqn:E; [| done].
    destruct (run cs p1) as [[p2 effs2]|] eqn:E'; [| done].
    intros [= <- _]. eapply IH; [| exact E']. by eapply reach_call.
Qed.

(** ** Accepted configurations *)

(** C6, as stated, fails: 3/8 with quarter-note cells is accepted by both
    setters without any diagnostic, the column count is 3/2, which is no
    integer, and the scheduler uses it as it is (columns 0, 1, then 0
    again). *)
Lemma fractional_columns_accepted :
  diagnostics ((setTimeSignature 3 8 initial).2
               ++ (setSubdivisionNoteValue 4 (setTimeSignature 3 8 initial).1).2)
  = [] /\
  _getMaxColumns fractionalSession == 3 # 2 /\
  (forall z : Z, ~ _getMaxColumns fractionalSession == inject_Z z) /\
  option_map (fun o : Outcome => columnsOf o.2)
    (_scheduleAudio 3 1 fractionalSession) = Some [0; 1; 0]%Z.
Proof.
  split; [reflexivity |]. split; [reflexivity |]. split.
  - intros z H.
    assert (_getMaxColumns fractionalSession == 3 # 2) as E by reflexivity.
    rewrite E in H. unfold Qeq, inject_Z in H. cbn [Qnum Qden] in H. lia.
  - vm_compute. reflexivity.
Qed.

Lemma maxColumns_pos p :
  0 < _timeSignatureNumerator p ->
  0 < _timeSignatureDenominator p ->
  0 < _subdivisionNoteValue p ->
  0 < _getMaxColumns p.
Proof.
  intros HN HD HS. unfold _getMaxColumns. cbn zeta.
  apply Qmult_lt_0_compat; [exact HN |].
  apply Qlt_shift_div_l; [exact HD |]. by rewrite Qmult_0_l.
Qed.

(** C6, amended.  On a stopped player, [setTimeSignature] accepts every
    N > 0 and D > 0 and [setSubdivisionNoteValue] accepts every S among 4, 8,
    16 and 32, whatever the relation between S and D: no diagnostic is
    reported and both change events are dispatched.  The column count is then
    the positive number N * (S / D); it is the integer N * (S / D) when N and
    D are integers and S is a multiple of D. *)
Theorem accepted_columns (p : Player) (N D S : Q) :
  busy p = false ->
  0 < N -> 0 < D ->
  supportedSubdivision S = true ->
  let out1 := setTimeSignature N D p in
  let out2 := setSubdivisionNoteValue S out1.1 in
  diagnostics (out1.2 ++ out2.2) = [] /\
  events (out1.2 ++ out2.2)
    = [EvTimeSignatureChanged N D; EvSubdivisionChanged S] /\
  _getMaxColumns out2.1 == N * (S / D) /\
  0 < _getMaxColumns out2.1 /\
  (forall n d s : Z,
      N = inject_Z n -> D = inject_Z d -> S == inject_Z s -> (d | s)%Z ->
      _getMaxColumns out2.1 == inject_Z (n * (s / d))).
Proof.
  unfold busy. intros Hstopped HN HD HS.
  assert (Qle_bool N 0 = false) as EN
    by (apply negb_true_iff, (Qltb_lt 0 N), HN).
  assert (Qle_bool D 0 = false) as ED
    by (apply negb_true_iff, (Qltb_lt 0 D), HD).
  cbn zeta. unfold setTimeSignature. rewrite Hstopped, EN, ED.
  cbn [orb fst snd]. unfold setSubdivisionNoteValue.
  cbn [_isPlaying _isPaused set_timeSignatureDenominator
         set_timeSignatureNumerator].
  rewrite Hstopped, HS. cbn [negb fst snd app].
  split; [reflexivity |]. split; [reflexivity |].
  split; [reflexivity |]. split.
  - apply maxColumns_pos; cbn; try assumption.
    by apply supportedSubdivision_pos.
  - intros n d s -> -> Hs Hdiv. apply maxColumns_integer; try done.
    rewrite (Zlt_Qlt 0 d). exact HD.
Qed.

Lemma accepted_columns_witness :
  _getMaxColumns
    (setSubdivisionNoteValue 4 (setTimeSignature 3 8 initial).1).1
  == 3 * (4 / 8).
Proof.
  pose proof (accepted_columns initial 3 8 4 eq_refl eq_refl eq_refl eq_refl)
    as H.
  cbn zeta in H. exact (proj1 (proj2 (proj2 H))).
Defined.

(** * Further properties of the player *)

(** ** What the transport and the scheduler leave alone *)

Lemma sameSetup_refl p : sameSetup p p.
Proof. by repeat split. Qed.

Lemma sameSetup_trans p q r : sameSetup p q -> sameSetup q r -> sameSetup p r.
Proof.
  unfold sameSetup.
  intros (A1 & A2 & A3 & A4 & A5 & A6 & A7 & A8)
         (B1 & B2 & B3 & B4 & B5 & B6 & B7 & B8).
  repeat split; congruence.
Qed.

Lemma play_sameSetup now p : sameSetup p (play now p).1.
Proof.
  unfold play. destruct (_isPlaying p); [apply sameSetup_refl |].
  destruct (_isPaused p); by repeat split.
Qed.

Lemma pause_sameSetup now p : sameSetup p (pause now p).1.
Proof.
  unfold pause. destruct (_isPlaying p); [| apply sameSetup_refl].
  by repeat split.
Qed.

Lemma stop_sameSetup p : sameSetup p (stop p).1.
Proof.
  unfold stop. destruct (_ && _); [apply sameSetup_refl |]. by repeat split.
Qed.

Lemma scheduleCell_sameSetup cd mc p : sameSetup p (scheduleCell cd mc p).2.1.
Proof.
  unfold scheduleCell. destruct (_ && negb _); cbn [fst snd].
  - eapply sameSetup_trans; [| apply stop_sameSetup]. by repeat split.
  - destruct (_ && _); destruct (scheduleTracks _ _ _ _).2; by repeat split.
Qed.

Lemma scheduleLoop_sameSetup fuel now cd mc : forall p p' effs,
  scheduleLoop fuel now cd mc p = Some (p', effs) -> sameSetup p p'.
Proof.
  induction fuel as [|fuel IH]; intros p p' effs; cbn [scheduleLoop].
  - destruct (Qltb _ _); [done |]. intros [= <- _]. apply sameSetup_refl.
  - destruct (Qltb _ _); [| intros [= <- _]; apply sameSetup_refl].
    pose proof (scheduleCell_sameSetup cd mc p) as Hcell.
    destruct (scheduleCell cd mc p) as [[] [p1 effs1]]; cbn [fst snd] in Hcell.
    + destruct (scheduleLoop fuel now cd mc p1) as [[p2 effs2]|] eqn:E; [| done].
      intros [= <- _]. eapply sameSetup_trans; [exact Hcell | by eapply IH].
    + by intros [= <- _].
    + by intros [= <- _].
Qed.

Lemma transport_setup (c : Call) (p p' : Player) (effs : list Effect) :
  match c with
  | CPlay _ | CPause _ | CStop | CTick _ _ | CSourceEnded _ => True
  | _ => False
  end ->
  perform c p = Some (p', effs) ->
  sameSetup p p'.
Proof.
  destruct c; cbn [perform]; intros Hc; try destruct Hc;
    try (intros E%Some_outcome_fst; subst p').
  - apply play_sameSetup.
  - apply pause_sameSetup.
  - apply stop_sameSetup.
  - unfold _scheduleAudio. destruct (negb (_isPlaying p)).
    + intros [= <- _]. apply sameSetup_refl.
    + apply scheduleLoop_sameSetup.
  - by repeat split.
Qed.

(** X1.  A scheduler tick, [play], [pause], [stop] and the completion of a
    source never change the tempo, the meter, the subdivision, the loop
    flag, the look-ahead, the master gain or the track registry. *)
Theorem transport_keeps_setup (c : Call) (p p' : Player) (effs : list Effect) :
  match c with
  | CPlay _ | CPause _ | CStop | CTick _ _ | CSourceEnded _ => True
  | _ => False
  end ->
  perform c p = Some (p', effs) ->
  masterGain p' = masterGain p /\
  _tracks p' = _tracks p /\
  _bpm p' = _bpm p /\
  _timeSignatureNumerator p' = _timeSignatureNumerator p /\
  _timeSignatureDenominator p' = _timeSignatureDenominator p /\
  _subdivisionNoteValue p' = _subdivisionNoteValue p /\
  _loop p' = _loop p /\
  _lookAheadTime p' = _lookAheadTime p.
Proof. apply transport_setup. Qed.

Lemma transport_keeps_setup_witness :
  sameSetup combinedSession
    (default (combinedSession, []) (_scheduleAudio 1 0 combinedSession)).1.
Proof.
  apply (transport_keeps_setup (CTick 1 0) combinedSession _
           (default (combinedSession, []) (_scheduleAudio 1 0 combinedSession)).2
           I).
  vm_compute. reflexivity.
Defined.

(** ** One pass and one tick of the scheduler *)

Lemma columnsOf_app a b : columnsOf (a ++ b) = columnsOf a ++ columnsOf b.
Proof. unfold columnsOf. by rewrite events_app, omap_app. Qed.

Lemma starts_stopAll p : starts (stopAll p) = [].
Proof. unfold stopAll. induction (_scheduledSources p); cbn; auto. Qed.

Lemma stops_map_SourceStart l : stops (map SourceStart l) = [].
Proof. induction l; cbn; auto. Qed.

Lemma events_map_SourceStart l : events (map SourceStart l) = [].
Proof. induction l; cbn; auto. Qed.

Lemma events_cons_Dispatch ev effs : events (Dispatch ev :: effs) = ev :: events effs.
Proof. reflexivity. Qed.

Lemma stop_not_playing p : _isPlaying (stop p).1 = false.
Proof.
  pose proof (stop_lands_stopped p) as H. unfold busy in H.
  by apply orb_false_elim in H as [H _].
Qed.

Lemma stops_cons_Dispatch ev effs : stops (Dispatch ev :: effs) = stops effs.
Proof. reflexivity. Qed.

(** A pass that does not end in [stop()], whether it runs to its last
    statement or is cut short by the refused buffer. *)
Lemma scheduleCell_running cd mc p flow p1 effs :
  scheduleCell cd mc p = (flow, (p1, effs)) ->
  flow ≠ Return ->
  _isPlaying p1 = _isPlaying p /\
  _isPaused p1 = _isPaused p /\
  _scheduledSources p1 = _scheduledSources p ++ starts effs /\
  stops effs = [] /\
  events effs = [EvGridCellChanged (_currentCellIndex p1) (_nextCellTime p)].
Proof.
  intros H Hflow.
  pose proof (scheduleCell_starts _ _ _ _ _ _ H Hflow) as Hstarts.
  destruct (scheduleCell_scheduled _ _ _ _ _ _ H Hflow) as (_ & _ & Hsrc & Heffs).
  cbn zeta in Hsrc, Heffs. rewrite Hstarts.
  assert (_isPlaying p1 = _isPlaying p /\ _isPaused p1 = _isPaused p) as [? ?].
  { unfold scheduleCell in H. destruct (_ && negb _); [by injection H as <- |].
    destruct (_ && _); destruct (scheduleTracks _ _ _ _).2;
      by injection H as _ <- _. }
  repeat split; try done.
  - rewrite Heffs, stops_cons_Dispatch, stops_app, stops_map_SourceStart.
    by destruct (scheduleTracks _ _ _ _).2.
  - rewrite Heffs, events_cons_Dispatch, events_app, events_map_SourceStart.
    by destruct (scheduleTracks _ _ _ _).2.
Qed.

Lemma scheduleCell_Continue cd mc p p1 effs :
  scheduleCell cd mc p = (Continue, (p1, effs)) ->
  _isPlaying p1 = _isPlaying p /\
  _isPaused p1 = _isPaused p /\
  _nextCellTime p1 = _nextCellTime p + cd /\
  _scheduledSources p1 = _scheduledSources p ++ starts effs /\
  stops effs = [] /\
  events effs = [EvGridCellChanged (_currentCellIndex p1) (_nextCellTime p)].
Proof.
  intros H. assert (Continue ≠ Return) as Hflow by done.
  destruct (scheduleCell_running _ _ _ _ _ _ H Hflow) as (? & ? & ? & ? & ?).
  destruct (scheduleCell_continue _ _ _ _ _ H) as [? _].
  by repeat split.
Qed.

Lemma scheduleCell_Return cd mc p p1 effs :
  scheduleCell cd mc p = (Return, (p1, effs)) ->
  _isPlaying p = true ->
  busy p1 = false /\
  _currentCellIndex p1 = (-1)%Z /\
  _loop p = false /\
  _scheduledSources p1 = [] /\
  stops effs = _scheduledSources p /\
  starts effs = [] /\
  events effs = [EvStop; EvGridCellChanged (-1)%Z 0].
Proof.
  unfold scheduleCell. destruct (_ && negb _) eqn:Ew.
  - apply andb_true_iff in Ew as [_ Hloop]. apply negb_true_iff in Hloop.
    cbn [_loop set_currentCellIndex] in Hloop.
    unfold stop. cbn [_isPlaying _isPaused set_currentCellIndex].
    intros E Hplaying. rewrite Hplaying in E. cbn [negb andb] in E.
    injection E as <- <-.
    cbn [_scheduledSources set_scheduledSources _currentCellIndex
           set_playbackTime set_currentCellIndex].
    rewrite stops_app, starts_app, events_app, stops_stopAll, starts_stopAll,
      events_stopAll.
    repeat split; try done. by rewrite app_nil_r.
  - by destruct (_ && _); destruct (scheduleTracks _ _ _ _).2.
Qed.

(** What a run of the [while] loop establishes, started on a playing
    player. *)
Lemma scheduleLoop_facts fuel now cd mc :
  forall p p' effs,
    scheduleLoop fuel now cd mc p = Some (p', effs) ->
    _isPlaying p = true ->
    if _isPlaying p' then
      _scheduledSources p' = _scheduledSources p ++ starts effs /\
      stops effs = []
    else
      busy p' = false /\
      _currentCellIndex p' = (-1)%Z /\
      _loop p = false /\
      _scheduledSources p' = [] /\
      stops effs = _scheduledSources p ++ starts effs /\
      exists before,
        events effs = before ++ [EvStop; EvGridCellChanged (-1)%Z 0].
Proof.
  induction fuel as [|fuel IH]; intros p p' effs; cbn [scheduleLoop].
  - destruct (Qltb _ _) eqn:Ec; [done |]. intros [= <- <-] Hp.
    rewrite Hp. cbn. by rewrite app_nil_r.
  - destruct (Qltb _ _) eqn:Ec.
    2:{ intros [= <- <-] Hp. rewrite Hp. cbn. by rewrite app_nil_r. }
    destruct (scheduleCell cd mc p) as [flow [p1 effs1]] eqn:Ecell.
    assert (flow = Return \/ flow ≠ Return) as [->|Hflow]
      by (destruct flow; [right | left | right]; done).
    { intros [= <- <-] Hp.
      pose proof (scheduleCell_Return _ _ _ _ _ Ecell Hp)
        as (Hb & Hidx & Hl & Hs & Hst & Hstarts & Hev).
      assert (_isPlaying p1 = false) as ->
        by (unfold busy in Hb; by apply orb_false_elim in Hb as [? _]).
      rewrite Hstarts, app_nil_r. repeat split; try done.
      exists []. by rewrite Hev. }
    pose proof (scheduleCell_sameSetup cd mc p) as Hsame.
    rewrite Ecell in Hsame. cbn [fst snd] in Hsame.
    destruct Hsame as (_ & _ & _ & _ & _ & _ & Hloop & _).
    pose proof (scheduleCell_running _ _ _ _ _ _ Ecell Hflow)
      as (Hpl & _ & Hsrc & Hstops & Hev).
    destruct flow; [| done |].
    + destruct (scheduleLoop fuel now cd mc p1) as [[p2 effs2]|] eqn:E; [| done].
      intros [= <- <-] Hp. rewrite Hp in Hpl.
      pose proof (IH _ _ _ E Hpl) as Hrest.
      rewrite stops_app, starts_app, events_app, Hstops.
      destruct (_isPlaying p2).
      * destruct Hrest as (Hs & Hst). split; [| done].
        by rewrite Hs, Hsrc, app_assoc.
      * destruct Hrest as (Hb & Hidx & Hl & Hs & Hst & before & Hbefore).
        split; [done |]. split; [done |]. split; [congruence |].
        split; [done |].
        split; [rewrite Hst, Hsrc; cbn [app]; by rewrite <- app_assoc |].
        exists (events effs1 ++ before). by rewrite Hbefore, app_assoc.
    + intros [= <- <-] Hp. rewrite Hpl, Hp. by split.
Qed.

Lemma combinedSession_reachable : reachable combinedSession.
Proof.
  apply (reachable_run
           [CAddTrack "iya";
            CAddAudioToGrid "iya" 0 (Combined "iya-open" "iya-slap" 3);
            CPlay 0]
           initial _
           [Dispatch (EvTrackAdded "iya");
            Dispatch (EvAudioAddedToGrid "iya" 0
                        (Combined "iya-open" "iya-slap" 3));
            Dispatch EvPlay]
           reach_initial).
  vm_compute. reflexivity.
Qed.

Lemma tick_loop fuel now p p' effs :
  _scheduleAudio fuel now p = Some (p', effs) ->
  _isPlaying p = true ->
  scheduleLoop fuel now (_calculateCellDuration p) (_getMaxColumns p) p
  = Some (p', effs).
Proof. unfold _scheduleAudio. intros H Hp. by rewrite Hp in H. Qed.


(** X4.  A tick on a playing, reachable player cancels sources only when it
    stops the player.  If it returns still playing, it cancelled nothing and
    the in-flight set has grown by exactly the sources it started.  If it
    returns stopped, it called [stop()] on every source that was in flight
    and on every source it had started itself during that tick, and the
    in-flight set is empty. *)
Theorem tick_cancels_only_on_stop (fuel : nat) (now : Q) (p p' : Player)
    (effs : list Effect) :
  reachable p ->
  _isPlaying p = true ->
  _scheduleAudio fuel now p = Some (p', effs) ->
  if _isPlaying p' then
    stops effs = [] /\
    _scheduledSources p' = _scheduledSources p ++ starts effs
  else
    stops effs = _scheduledSources p ++ starts effs /\
    _scheduledSources p' = [].
Proof.
  intros Hreach Hp Htick.
  apply tick_loop in Htick; [| done].
  pose proof (scheduleLoop_facts _ _ _ _ _ _ _ Htick Hp) as Hrest.
  destruct (_isPlaying p'); tauto.
Qed.

Lemma endingSession_reachable : reachable endingSession.
Proof.
  apply (reachable_run
           [CSetLooping false; CSetTimeSignature 1 4;
            CSetSubdivisionNoteValue 4; CSetBPM 600; CAddTrack "kick";
            CAddAudioToGrid "kick" 0 (Single "kick-open"); CPlay 0]
           initial _
           (default [] (snd <$> run
              [CSetLooping false; CSetTimeSignature 1 4;
               CSetSubdivisionNoteValue 4; CSetBPM 600; CAddTrack "kick";
               CAddAudioToGrid "kick" 0 (Single "kick-open"); CPlay 0]
              initial))
           reach_initial).
  vm_compute. reflexivity.
Qed.

Lemma endingTick_eq :
  _scheduleAudio 2 (1 # 20) endingSession = Some (endingTick.1, endingTick.2).
Proof. vm_compute. reflexivity. Qed.


Lemma tick_cancels_only_on_stop_witness :
  starts endingTick.2
  = [ {| src_id := 0; src_buffer := Single "kick-open";
         src_track := "kick"; src_when := 0 |} ] /\
  stops endingTick.2 = _scheduledSources endingSession ++ starts endingTick.2 /\
  _scheduledSources endingTick.1 = [].
Proof.
  split; [vm_compute; reflexivity |].
  pose proof (tick_cancels_only_on_stop 2 (1 # 20) endingSession endingTick.1
                endingTick.2 endingSession_reachable eq_refl endingTick_eq)
    as H.
  assert (_isPlaying endingTick.1 = false) as E by (vm_compute; reflexivity).
  rewrite E in H. exact H.
Defined.

Lemma not_wrapped_at_zero mc : Qltb 0 mc && Qgeb (inject_Z 0) mc = false.
Proof.
  destruct (Qltb 0 mc) eqn:E; [| done]. cbn [andb].
  apply Qltb_lt in E. unfold Qgeb. apply not_true_iff_false.
  rewrite Qle_bool_iff. change (inject_Z 0) with 0. lra.
Qed.

(** X5.  After [play()] on a stopped player at clock time [now], the first
    thing any tick dispatches, as soon as [now] lies inside its look-ahead
    window, is [gridCellChanged] for column 0 with deadline [now]: column 0
    is not skipped, whatever the tempo and the meter are. *)
Theorem fresh_play_first_column (fuel : nat) (now t : Q) (p p' : Player)
    (effs : list Effect) :
  busy p = false ->
  now < t + _lookAheadTime p ->
  _scheduleAudio fuel t (play now p).1 = Some (p', effs) ->
  exists rest, events effs = EvGridCellChanged 0 now :: rest.
Proof.
  unfold busy. intros Hstopped Hwin.
  apply orb_false_elim in Hstopped as [Hpl Hpa].
  unfold play. rewrite Hpl, Hpa. cbn [negb fst].
  set (q := set_isPaused false _).
  assert (forall cd mc, exists flow p1 rest,
             scheduleCell cd mc q
             = (flow, (p1, Dispatch (EvGridCellChanged 0 now) :: rest)))
    as Hcell.
  { intros cd mc. unfold scheduleCell.
    change (_currentCellIndex (set_currentCellIndex (_currentCellIndex q + 1) q))
      with 0%Z.
    rewrite not_wrapped_at_zero. cbn [andb].
    destruct (scheduleTracks _ _ _ _).2; eexists _, _, _; reflexivity. }
  unfold _scheduleAudio. change (_isPlaying q) with true. cbn [negb].
  assert (Qltb (_nextCellTime q) (t + _lookAheadTime q) = true) as Hc
    by (apply Qltb_lt; exact Hwin).
  destruct fuel as [|fuel]; cbn [scheduleLoop]; rewrite Hc; [done |].
  destruct (Hcell (_calculateCellDuration q) (_getMaxColumns q))
    as (flow & p1 & rest & ->).
  destruct flow.
  - destruct (scheduleLoop _ _ _ _ _) as [[p2 effs2]|]; [| done].
    intros [= <- <-]. cbn [app]. rewrite events_cons_Dispatch. eauto.
  - intros [= <- <-]. rewrite events_cons_Dispatch. eauto.
  - intros [= <- <-]. rewrite events_cons_Dispatch. eauto.
Qed.

Lemma fresh_play_first_column_witness :
  exists rest,
    events (default (initial, []) (_scheduleAudio 1 0 (play 0 initial).1)).2
    = EvGridCellChanged 0 0 :: rest.
Proof.
  apply (fresh_play_first_column 1 0 0 initial
           (default (initial, []) (_scheduleAudio 1 0 (play 0 initial).1)).1).
  - reflexivity.
  - reflexivity.
  - vm_compute. reflexivity.
Defined.

(** ** The column pointer *)

Lemma sameSetup_maxColumns p p' :
  sameSetup p p' -> _getMaxColumns p' = _getMaxColumns p.
Proof.
  intros (_ & _ & _ & HN & HD & HS & _). unfold _getMaxColumns.
  by rewrite HN, HD, HS.
Qed.

Lemma sameSetup_cellDuration p p' :
  sameSetup p p' -> _calculateCellDuration p' = _calculateCellDuration p.
Proof.
  intros (_ & _ & Hb & _ & _ & HS & _). unfold _calculateCellDuration.
  by rewrite Hb, HS.
Qed.

Lemma wellFormed_maxColumns_pos p : wellFormed p -> 0 < _getMaxColumns p.
Proof.
  intros H. apply maxColumns_pos; [apply H | apply H |].
  apply supportedSubdivision_pos, H.
Qed.

Lemma cursor_reset p :
  wellFormed p -> _currentCellIndex p = (-1)%Z -> cursorInRange p.
Proof.
  intros Hwf Hidx. unfold cursorInRange. rewrite Hidx.
  split; [done |]. split; [done |].
  pose proof (wellFormed_maxColumns_pos p Hwf).
  change (inject_Z (-1)) with (-1 # 1). lra.
Qed.

Lemma cursor_keep p p' :
  cursorInRange p ->
  wellFormed p' ->
  _currentCellIndex p' = _currentCellIndex p ->
  busy p' = busy p ->
  (busy p = true -> _getMaxColumns p' = _getMaxColumns p) ->
  cursorInRange p'.
Proof.
  intros (Hstopped & Hlow & Hhigh) Hwf Hidx Hbusy Hmc.
  destruct (busy p) eqn:E.
  - unfold cursorInRange. rewrite Hidx, Hbusy, Hmc by done. by repeat split.
  - apply cursor_reset; [done |]. rewrite Hidx. by apply Hstopped.
Qed.

Lemma scheduleCell_cursor cd p :
  wellFormed p -> cursorInRange p -> _isPlaying p = true ->
  cursorInRange (scheduleCell cd (_getMaxColumns p) p).2.1.
Proof.
  intros Hwf (_ & Hlow & Hhigh) Hp.
  pose proof (scheduleCell_wellFormed cd (_getMaxColumns p) p Hwf) as Hwf1.
  pose proof (scheduleCell_sameSetup cd (_getMaxColumns p) p) as Hsame.
  apply sameSetup_maxColumns in Hsame.
  pose proof (wellFormed_maxColumns_pos p Hwf) as Hmc.
  destruct (scheduleCell cd (_getMaxColumns p) p) as [flow [p1 effs1]] eqn:Ecell;
    cbn [fst snd] in *.
  assert (flow = Return \/ flow ≠ Return) as [-> | Hflow]
    by (destruct flow; [right | left | right]; done).
  { apply cursor_reset; [done |].
    by apply (scheduleCell_Return _ _ _ _ _ Ecell Hp). }
  destruct (scheduleCell_running _ _ _ _ _ _ Ecell Hflow) as (Hpl & _).
  unfold cursorInRange, busy. rewrite Hpl, Hp, Hsame. cbn [orb].
  split; [done |].
  unfold scheduleCell in Ecell. destruct (_ && negb _); [congruence |].
  cbn [_currentCellIndex set_currentCellIndex] in Ecell.
  assert (Qltb 0 (_getMaxColumns p) = true) as Epos by (by apply Qltb_lt).
  rewrite Epos in Ecell. cbn [andb] in Ecell.
  destruct (Qgeb _ _) eqn:Ege;
    destruct (scheduleTracks _ _ _ _).2;
    injection Ecell as _ <- _; cbn [_currentCellIndex set_nextCellTime
      set_nextSourceId set_scheduledSources set_currentCellIndex].
  1, 2: split; [lia | exact Hmc].
  all: split; [lia |]; unfold Qgeb in Ege;
    apply not_true_iff_false in Ege; rewrite Qle_bool_iff in Ege;
    by apply Qnot_le_lt.
Qed.

Lemma scheduleLoop_cursor fuel now cd : forall p p' effs,
  scheduleLoop fuel now cd (_getMaxColumns p) p = Some (p', effs) ->
  wellFormed p -> cursorInRange p -> _isPlaying p = true ->
  cursorInRange p'.
Proof.
  induction fuel as [|fuel IH]; intros p p' effs; cbn [scheduleLoop].
  - destruct (Qltb _ _); [done |]. by intros [= <- _].
  - destruct (Qltb _ _); [| by intros [= <- _]].
    intros H Hwf Hcur Hp.
    pose proof (scheduleCell_cursor cd p Hwf Hcur Hp) as Hcur1.
    pose proof (scheduleCell_wellFormed cd (_getMaxColumns p) p Hwf) as Hwf1.
    pose proof (scheduleCell_sameSetup cd (_getMaxColumns p) p) as Hsame.
    apply sameSetup_maxColumns in Hsame.
    destruct (scheduleCell cd (_getMaxColumns p) p) as [[] [p1 effs1]] eqn:Ecell;
      cbn [fst snd] in *.
    + pose proof (scheduleCell_Continue _ _ _ _ _ Ecell) as (Hpl & _).
      rewrite <- Hsame in H.
      destruct (scheduleLoop fuel now cd (_getMaxColumns p1) p1)
        as [[p2 effs2]|] eqn:E; [| done].
      injection H as <- _. eapply IH; eauto; congruence.
    + by injection H as <- _.
    + by injection H as <- _.
Qed.

Ltac split_guards :=
  repeat match goal with
         | |- context [if ?c then _ else _] => destruct c eqn:?
         | |- context [match ?c with Some _ => _ | None => _ end] =>
             destruct c eqn:?
         end.

Ltac keeps_cursor :=
  intros; unfold busy, _getMaxColumns in *; split_guards; cbn;
  repeat split; try done; try congruence.

Lemma play_cursor now p :
  wellFormed p -> cursorInRange p -> cursorInRange (play now p).1.
Proof.
  intros Hwf Hcur. pose proof (play_wellFormed now p Hwf) as Hwf'.
  unfold play in *. destruct (_isPlaying p) eqn:Hpl; [done |].
  destruct (_isPaused p) eqn:Hpa; cbn [negb fst] in *.
  - destruct Hcur as (_ & Hlow & Hhigh). by repeat split.
  - by apply cursor_reset.
Qed.

Lemma pause_cursor now p :
  wellFormed p -> cursorInRange p -> cursorInRange (pause now p).1.
Proof.
  intros Hwf Hcur. unfold pause. destruct (_isPlaying p) eqn:Hpl; [| done].
  destruct Hcur as (_ & Hlow & Hhigh). by repeat split.
Qed.

Lemma stop_cursor p : wellFormed p -> cursorInRange p -> cursorInRange (stop p).1.
Proof.
  intros Hwf Hcur. pose proof (stop_wellFormed p Hwf) as Hwf'.
  unfold stop in *. destruct (_ && _); [done |]. by apply cursor_reset.
Qed.

Lemma perform_cursor c p p' effs :
  perform c p = Some (p', effs) ->
  wellFormed p -> cursorInRange p -> cursorInRange p'.
Proof.
  intros Hstep Hwf Hcur.
  pose proof (perform_wellFormed _ _ _ _ Hstep Hwf) as Hwf'.
  destruct c; cbn [perform] in Hstep;
    try (apply Some_outcome_fst in Hstep; subst p').
  - by apply play_cursor.
  - by apply pause_cursor.
  - by apply stop_cursor.
  - apply (cursor_keep p); try done; unfold setBPM; keeps_cursor.
  - apply (cursor_keep p); try done; unfold setTimeSignature; keeps_cursor.
  - apply (cursor_keep p); try done; unfold setSubdivisionNoteValue;
      keeps_cursor.
  - apply (cursor_keep p); try done; unfold setLooping; keeps_cursor.
  - apply (cursor_keep p); try done; unfold addTrack; keeps_cursor.
  - apply (cursor_keep p); try done; unfold removeTrack; keeps_cursor.
  - apply (cursor_keep p); try done; unfold addAudioToGrid; keeps_cursor.
  - apply (cursor_keep p); try done; unfold removeAudioFromGrid; keeps_cursor.
  - apply (cursor_keep p); try done; unfold setTrackVolume; keeps_cursor.
  - apply (cursor_keep p); try done; unfold setTrackMuted; keeps_cursor.
  - apply (cursor_keep p); try done; unfold setMasterVolume; keeps_cursor.
  - unfold _scheduleAudio in Hstep. destruct (_isPlaying p) eqn:Hpl;
      cbn [negb] in Hstep.
    + by eapply scheduleLoop_cursor.
    + by injection Hstep as <- _.
  - apply (cursor_keep p); try done; unfold sourceEnded; keeps_cursor.
Qed.

Lemma cursor_initial : cursorInRange initial.
Proof. apply cursor_reset; [apply wellFormed_initial | reflexivity]. Qed.

Lemma cursor_in_range_aux p : reachable p -> cursorInRange p.
Proof.
  induction 1 as [|c p p' effs Hreach IH Hstep].
  - apply cursor_initial.
  - eapply perform_cursor; eauto. by apply reachable_wellFormed.
Qed.

(** X9.  In every reachable state the column pointer is an integer that
    is at least -1, it is -1 whenever the player is stopped, and it lies
    below the number of columns per measure whenever that number is
    positive. *)
Theorem cursor_in_range (p : Player) :
  reachable p ->
  (busy p = false -> _currentCellIndex p = (-1)%Z) /\
  (-1 <= _currentCellIndex p)%Z /\
  (0 < _getMaxColumns p ->
   inject_Z (_currentCellIndex p) < _getMaxColumns p).
Proof.
  intros H. destruct (cursor_in_range_aux p H) as (Hstopped & Hlow & Hhigh).
  by repeat split.
Qed.

Lemma cursor_in_range_witness :
  (busy endingSession = false -> _currentCellIndex endingSession = (-1)%Z) /\
  (-1 <= _currentCellIndex endingSession)%Z /\
  inject_Z (_currentCellIndex endingSession) < _getMaxColumns endingSession.
Proof.
  destruct (cursor_in_range endingSession endingSession_reachable)
    as (Hstopped & Hlow & Hhigh).
  split; [exact Hstopped |]. split; [exact Hlow |].
  apply Hhigh. reflexivity.
Defined.

(** ** Columns announced by a looping player *)

Lemma scheduleCell_looping cd mc N p :
  (0 < N)%Z -> mc == inject_Z N ->
  _loop p = true ->
  (-1 <= _currentCellIndex p < N)%Z ->
  exists flow p1 effs1,
    scheduleCell cd mc p = (flow, (p1, effs1)) /\
    flow ≠ Return /\
    _currentCellIndex p1 = ((_currentCellIndex p + 1) `mod` N)%Z.
Proof.
  intros HN Hmc Hloop [Hlow Hhigh]. unfold scheduleCell.
  cbn [_loop _currentCellIndex set_currentCellIndex]. rewrite Hloop.
  rewrite andb_false_r.
  assert (Qltb 0 mc = true) as ->.
  { apply Qltb_lt. rewrite Hmc. change 0 with (inject_Z 0).
    by rewrite <- Zlt_Qlt. }
  cbn [andb]. destruct (Qgeb _ mc) eqn:Ege;
    destruct (scheduleTracks _ _ _ _).2;
    eexists _, _, _; (split; [reflexivity |]); (split; [done |]);
    cbn [_currentCellIndex set_nextCellTime set_nextSourceId
           set_scheduledSources set_currentCellIndex];
    unfold Qgeb in Ege.
  1, 2: apply Qle_bool_iff in Ege; rewrite Hmc, <- Zle_Qle in Ege;
    replace (_currentCellIndex p + 1)%Z with N by lia;
    by rewrite Z.mod_same by lia.
  all: apply not_true_iff_false in Ege;
    rewrite Qle_bool_iff, Hmc, <- Zle_Qle in Ege;
    rewrite Z.mod_small; lia.
Qed.

Lemma scheduleLoop_consecutive fuel now cd mc N :
  (0 < N)%Z -> mc == inject_Z N ->
  forall p p' effs,
    scheduleLoop fuel now cd mc p = Some (p', effs) ->
    _loop p = true -> _isPlaying p = true ->
    (-1 <= _currentCellIndex p < N)%Z ->
    _isPlaying p' = true /\
    columnsOf effs
    = (fun k => (_currentCellIndex p + 1 + Z.of_nat k) `mod` N)%Z
        <$> seq 0 (length (columnsOf effs)).
Proof.
  intros HN Hmc. induction fuel as [|fuel IH]; intros p p' effs;
    cbn [scheduleLoop].
  - destruct (Qltb _ _); [done |]. by intros [= <- <-].
  - destruct (Qltb _ _); [| by intros [= <- <-]].
    intros H Hloop Hp Hrange.
    destruct (scheduleCell_looping cd mc N p HN Hmc Hloop Hrange)
      as (flow & p1 & effs1 & Ecell & Hflow & Hidx).
    rewrite Ecell in H.
    pose proof (scheduleCell_sameSetup cd mc p) as Hsame.
    rewrite Ecell in Hsame. cbn [fst snd] in Hsame.
    destruct Hsame as (_ & _ & _ & _ & _ & _ & Hloop1 & _).
    destruct (scheduleCell_running _ _ _ _ _ _ Ecell Hflow)
      as (Hpl & _ & _ & _ & Hev).
    assert (columnsOf effs1 = [_currentCellIndex p1]) as Hcols1
      by (unfold columnsOf; by rewrite Hev).
    destruct flow; [| done |].
    + destruct (scheduleLoop fuel now cd mc p1) as [[p2 effs2]|] eqn:E; [| done].
      injection H as <- <-.
      assert (0 <= _currentCellIndex p1 < N)%Z as Hrange1
        by (rewrite Hidx; apply Z.mod_pos_bound; lia).
      destruct (IH _ _ _ E) as [Hp2 Hcols]; [congruence | congruence | lia |].
      split; [exact Hp2 |].
      rewrite columnsOf_app, Hcols1. cbn [app length seq fmap list_fmap].
      f_equal; [by rewrite Hidx, Z.add_0_r |].
      rewrite Hcols at 1. rewrite <- seq_shift, <- list_fmap_compose.
      apply list_fmap_ext. intros _ k _. cbn [compose].
      rewrite Hidx, Nat2Z.inj_succ, <- Z.add_assoc, Z.add_mod_idemp_l by lia.
      f_equal. lia.
    + injection H as <- <-. split; [congruence |].
      rewrite Hcols1. cbn [length seq fmap list_fmap].
      by rewrite Hidx, Z.add_0_r.
Qed.

(** X6.  With looping on and an integer number N of columns per measure, a
    tick on a playing, reachable player never stops the player, and the
    columns it announces are consecutive modulo N: the k-th
    [gridCellChanged] of the tick carries column (c + 1 + k) mod N, where c
    is the column pointer before the tick. *)
Theorem tick_columns_consecutive (fuel : nat) (now : Q) (N : Z)
    (p p' : Player) (effs : list Effect) :
  reachable p ->
  _isPlaying p = true ->
  _loop p = true ->
  _getMaxColumns p == inject_Z N ->
  _scheduleAudio fuel now p = Some (p', effs) ->
  _isPlaying p' = true /\
  columnsOf effs
  = (fun k => (_currentCellIndex p + 1 + Z.of_nat k) `mod` N)%Z
      <$> seq 0 (length (columnsOf effs)).
Proof.
  intros Hreach Hp Hloop HN Htick.
  destruct (cursor_in_range_aux p Hreach) as (_ & Hlow & Hhigh).
  pose proof (wellFormed_maxColumns_pos p (reachable_wellFormed p Hreach)) as Hpos.
  rewrite HN in Hhigh, Hpos. change 0 with (inject_Z 0) in Hpos.
  rewrite <- Zlt_Qlt in Hhigh, Hpos.
  apply tick_loop in Htick; [| done].
  by eapply scheduleLoop_consecutive.
Qed.

Lemma loopSession_reachable : reachable loopSession.
Proof.
  apply (reachable_run
           [CSetTimeSignature 2 4; CSetSubdivisionNoteValue 4; CSetBPM 600;
            CPlay 0]
           initial _
           (default [] (snd <$> run
              [CSetTimeSignature 2 4; CSetSubdivisionNoteValue 4; CSetBPM 600;
               CPlay 0] initial))
           reach_initial).
  vm_compute. reflexivity.
Qed.

Lemma tick_columns_consecutive_witness :
  _isPlaying loopTick.1 = true /\ columnsOf loopTick.2 = [0; 1; 0; 1]%Z.
Proof.
  destruct (tick_columns_consecutive 4 (1 # 4) 2 loopSession loopTick.1
              loopTick.2 loopSession_reachable eq_refl eq_refl)
    as [Hp Hcols].
  - reflexivity.
  - vm_compute. reflexivity.
  - split; [exact Hp |]. rewrite Hcols. vm_compute. reflexivity.
Defined.

(** ** Settings of reachable states *)

(** X8.  Whatever calls were made, the stored settings fail every test by
    which the setters reject a value: the BPM is not <= 0, neither part of
    the time signature is <= 0, the subdivision note value is one of 4, 8,
    16 and 32, and no two tracks share an id.  The bounds are stated as the
    guards test them, as the negation of [<= 0]. *)
Theorem reachable_settings_valid (p : Player) :
  reachable p ->
  ~ _bpm p <= 0 /\
  ~ _timeSignatureNumerator p <= 0 /\
  ~ _timeSignatureDenominator p <= 0 /\
  (_subdivisionNoteValue p == 4 \/ _subdivisionNoteValue p == 8 \/
   _subdivisionNoteValue p == 16 \/ _subdivisionNoteValue p == 32) /\
  NoDup (_tracks p).*1.
Proof.
  intros H%reachable_wellFormed.
  split; [apply Qlt_not_le, H |].
  split; [apply Qlt_not_le, H |].
  split; [apply Qlt_not_le, H |].
  split; [apply supportedSubdivision_cases, H | apply H].
Qed.

Lemma reachable_settings_valid_witness :
  ~ _bpm endingSession <= 0 /\ _subdivisionNoteValue endingSession == 4.
Proof.
  pose proof (reachable_settings_valid endingSession endingSession_reachable)
    as (Hbpm & _ & _ & _ & _).
  split; [exact Hbpm | reflexivity].
Defined.

(** ** Gains stay in the unit interval *)

Section JSMapForall.
Context {V : Type} (P : V -> Prop).

Lemma Map_get_Forall k v (m : list (string * V)) :
  Forall (fun e => P e.2) m -> Map_get k m = Some v -> P v.
Proof.
  induction 1 as [|[k' v'] m Hv _ IH]; cbn; [done |].
  destruct (String.eqb k k'); [by intros [= <-] | exact IH].
Qed.

Lemma Map_set_Forall k v (m : list (string * V)) :
  Forall (fun e => P e.2) m -> P v -> Forall (fun e => P e.2) (Map_set k v m).
Proof.
  intros Hm Hv. induction Hm as [|[k' v'] m Hv' Hm IH]; cbn.
  - by apply Forall_singleton.
  - destruct (String.eqb k k'); by apply Forall_cons.
Qed.

Lemma Map_delete_Forall k (m : list (string * V)) :
  Forall (fun e => P e.2) m -> Forall (fun e => P e.2) (Map_delete k m).
Proof.
  induction 1 as [|[k' v'] m Hv' Hm IH]; cbn; [done |].
  destruct (String.eqb k k'); [done | by apply Forall_cons].
Qed.
End JSMapForall.

Lemma clamp01_inUnit v : inUnit (clamp01 v).
Proof.
  unfold inUnit, clamp01. split.
  - apply Q.le_max_l.
  - apply Q.max_lub; [done | apply Q.le_min_l].
Qed.

Lemma applied_volume_inUnit v : inUnit (if outOfUnit v then clamp01 v else v).
Proof.
  destruct (outOfUnit v) eqn:E; [apply clamp01_inUnit |].
  unfold outOfUnit in E. apply orb_false_elim in E as [E0 E1].
  apply Qltb_ge in E0, E1. by split.
Qed.

Lemma sameSetup_gains p p' : sameSetup p p' -> gainsInUnit p -> gainsInUnit p'.
Proof.
  intros (Hm & Ht & _) [H1 H2]. unfold gainsInUnit. by rewrite Hm, Ht.
Qed.

Lemma perform_gains c p p' effs :
  perform c p = Some (p', effs) -> gainsInUnit p -> gainsInUnit p'.
Proof.
  intros Hstep Hg.
  destruct c;
    try (apply (sameSetup_gains p); [| exact Hg];
         eapply transport_setup; [| exact Hstep]; exact I);
    cbn [perform] in Hstep; apply Some_outcome_fst in Hstep; subst p';
    destruct Hg as [Hm Ht].
  - unfold setBPM. by split_guards.
  - unfold setTimeSignature. by split_guards.
  - unfold setSubdivisionNoteValue. by split_guards.
  - by unfold setLooping.
  - unfold addTrack. split_guards; [done |]. split; [done |]. cbn.
    apply (Map_set_Forall trackInUnit); [done |]. by split.
  - unfold removeTrack. split_guards; try done. split; [done |]. cbn.
    by apply (Map_delete_Forall trackInUnit).
  - unfold addAudioToGrid. destruct (_ || _); [done |].
    destruct (Map_get trackId (_tracks p)) as [track|] eqn:E; [| done].
    destruct (_ <? _)%Z; [done |]. split; [done |]. cbn.
    apply (Map_set_Forall trackInUnit); [done |].
    exact (Map_get_Forall trackInUnit _ _ _ Ht E).
  - unfold removeAudioFromGrid. destruct (_ || _); [done |].
    destruct (Map_get trackId (_tracks p)) as [track|] eqn:E; [| done].
    destruct (cells track !! columnIndex); [| done]. split; [done |]. cbn.
    apply (Map_set_Forall trackInUnit); [done |].
    exact (Map_get_Forall trackInUnit _ _ _ Ht E).
  - unfold setTrackVolume.
    destruct (Map_get trackId (_tracks p)) as [track|] eqn:E; [| done].
    split; [done |]. cbn [fst _tracks set_tracks].
    pose proof (applied_volume_inUnit volume) as Hv.
    pose proof (Map_get_Forall trackInUnit _ _ _ Ht E) as [Hg Hl].
    apply (Map_set_Forall trackInUnit); [done |].
    destruct (_isMuted track); by split.
  - unfold setTrackMuted.
    destruct (Map_get trackId (_tracks p)) as [track|] eqn:E; [| done].
    split; [done |]. cbn [fst _tracks set_tracks].
    pose proof (Map_get_Forall trackInUnit _ _ _ Ht E) as [Hg Hl].
    apply (Map_set_Forall trackInUnit); [done |].
    destruct isMuted; by split.
  - unfold setMasterVolume. split; [| done]. apply applied_volume_inUnit.
Qed.

Lemma gains_reachable p : reachable p -> gainsInUnit p.
Proof.
  induction 1 as [|c p p' effs _ IH Hstep].
  - split; [by split |]. apply Forall_nil_2.
  - by eapply perform_gains.
Qed.

(** X10.  In every reachable state the master gain, the gain of every
    track and every stored restore-volume lie in [0, 1], whatever volumes
    were passed to [setTrackVolume] and [setMasterVolume]. *)
Theorem gains_in_unit (p : Player) :
  reachable p ->
  0 <= masterGain p <= 1 /\
  forall trackId track,
    Map_get trackId (_tracks p) = Some track ->
    0 <= gain track <= 1 /\ 0 <= _lastVolume track <= 1.
Proof.
  intros [Hm Ht]%gains_reachable. split; [exact Hm |].
  intros trackId track Hget.
  exact (Map_get_Forall trackInUnit _ _ _ Ht Hget).
Qed.

Lemma gains_in_unit_witness :
  0 <= masterGain (setMasterVolume 7 (addTrack "iya" initial).1).1 <= 1.
Proof.
  apply (gains_in_unit (setMasterVolume 7 (addTrack "iya" initial).1).1).
  apply (reachable_run [CAddTrack "iya"; CSetMasterVolume 7] initial _
           [Dispatch (EvTrackAdded "iya");
            ConsoleWarn "Master volume must be between 0.0 and 1.0.";
            Dispatch (EvMasterVolumeChanged 1)]
           reach_initial).
  vm_compute. reflexivity.
Defined.

(** ** The grid *)

Lemma set_tracks_same p : set_tracks (_tracks p) p = p.
Proof. by destruct p. Qed.

Lemma set_tracks_twice a b p : set_tracks a (set_tracks b p) = set_tracks a p.
Proof. reflexivity. Qed.

Lemma Map_delete_set_fresh {V} k (v : V) m :
  Map_get k m = None -> Map_delete k (Map_set k v m) = m.
Proof.
  induction m as [|[k' v'] m IH]; cbn.
  - by rewrite String.eqb_refl.
  - destruct (String.eqb k k') eqn:E; [done |]. cbn. rewrite E.
    intros H. by rewrite IH.
Qed.

Lemma Map_get_delete_eq {V} k (m : list (string * V)) :
  NoDup m.*1 -> Map_get k (Map_delete k m) = None.
Proof.
  induction m as [|[k' v'] m IH]; cbn; [done |].
  rewrite NoDup_cons. intros [Hk Hnd].
  destruct (String.eqb_spec k k') as [->|Hne]; cbn.
  - by apply Map_get_None.
  - destruct (String.eqb_spec k k'); [done | by apply IH].
Qed.

Lemma Map_get_delete_ne {V} k k' (m : list (string * V)) :
  k ≠ k' -> Map_get k' (Map_delete k m) = Map_get k' m.
Proof.
  intros Hne. induction m as [|[k0 v0] m IH]; cbn; [done |].
  destruct (String.eqb_spec k k0) as [->|]; cbn.
  - destruct (String.eqb_spec k' k0); [congruence | done].
  - by rewrite IH.
Qed.

(** X11.  On a stopped player, [addAudioToGrid] on an existing track and a
    column >= 0 makes the cell hold the given placement, replacing whatever
    was there, leaves every other cell of every track as it was, and
    dispatches [audioAddedToGrid]. *)
Theorem addAudio_lookup (trackId : string) (columnIndex : Z)
    (audioBuffer : Placement) (p : Player) :
  busy p = false ->
  Map_has trackId (_tracks p) = true ->
  (0 <= columnIndex)%Z ->
  let out := addAudioToGrid trackId columnIndex audioBuffer p in
  cellAt trackId columnIndex out.1 = Some audioBuffer /\
  (forall t c, (t, c) ≠ (trackId, columnIndex) ->
               cellAt t c out.1 = cellAt t c p) /\
  out.2 = [Dispatch (EvAudioAddedToGrid trackId columnIndex audioBuffer)].
Proof.
  unfold busy. intros Hstopped Hhas Hcol.
  apply Map_has_true in Hhas as [track Htrack].
  cbn zeta. unfold addAudioToGrid. rewrite Hstopped, Htrack.
  destruct (Z.ltb_spec columnIndex 0) as [|_]; [lia |]. cbn [fst snd].
  unfold cellAt. cbn [_tracks set_tracks].
  split; [| split; [| done]].
  - rewrite Map_get_set_eq. cbn. apply lookup_insert_eq.
  - intros t c Hne. destruct (decide (trackId = t)) as [<-|Hnt].
    + rewrite Map_get_set_eq, Htrack. cbn.
      apply lookup_insert_ne. congruence.
    + by rewrite Map_get_set_ne.
Qed.

Lemma addAudio_lookup_witness :
  cellAt "iya" 3
    (addAudioToGrid "iya" 3 (Single "iya-slap") (addTrack "iya" initial).1).1
  = Some (Single "iya-slap").
Proof.
  apply (addAudio_lookup "iya" 3 (Single "iya-slap") (addTrack "iya" initial).1);
    [reflexivity | reflexivity | done].
Defined.

(** X12.  On a stopped player, [removeAudioFromGrid] leaves the named cell
    empty and every other cell as it was; it dispatches
    [audioRemovedFromGrid] exactly when the cell held a placement, and
    nothing when the cell was already empty. *)
Theorem removeAudio_lookup (trackId : string) (columnIndex : Z) (p : Player) :
  busy p = false ->
  let out := removeAudioFromGrid trackId columnIndex p in
  cellAt trackId columnIndex out.1 = None /\
  (forall t c, (t, c) ≠ (trackId, columnIndex) ->
               cellAt t c out.1 = cellAt t c p) /\
  events out.2
  = match cellAt trackId columnIndex p with
    | Some _ => [EvAudioRemovedFromGrid trackId columnIndex]
    | None => []
    end.
Proof.
  unfold busy. intros Hstopped. cbn zeta.
  unfold removeAudioFromGrid, cellAt. rewrite Hstopped.
  destruct (Map_get trackId (_tracks p)) as [track|] eqn:Htrack; cbn [mbind option_bind].
  2:{ cbn [fst snd]. rewrite Htrack. done. }
  destruct (cells track !! columnIndex) eqn:Hcell; cbn [fst snd _tracks set_tracks].
  - split; [| split; [| done]].
    + rewrite Map_get_set_eq. cbn. apply lookup_delete_eq.
    + intros t c Hne. destruct (decide (trackId = t)) as [<-|Hnt].
      * rewrite Map_get_set_eq, Htrack. cbn.
        apply lookup_delete_ne. congruence.
      * by rewrite Map_get_set_ne.
  - rewrite Htrack. cbn. by rewrite Hcell.
Qed.

Lemma removeAudio_lookup_witness :
  cellAt "iya" 0 (removeAudioFromGrid "iya" 0 (stop combinedSession).1).1 = None.
Proof.
  apply (removeAudio_lookup "iya" 0 (stop combinedSession).1). reflexivity.
Defined.

(** ** Adding and removing tracks *)

(** X13.  On a stopped player, adding a track under a fresh id and removing
    it again gives back exactly the state before, and the two calls
    dispatch [trackAdded] and then [trackRemoved]. *)
Theorem addTrack_removeTrack (trackId : string) (p : Player) :
  busy p = false ->
  Map_has trackId (_tracks p) = false ->
  let added := addTrack trackId p in
  let removed := removeTrack trackId added.1 in
  removed.1 = p /\
  added.2 ++ removed.2
  = [Dispatch (EvTrackAdded trackId); Dispatch (EvTrackRemoved trackId)].
Proof.
  unfold busy. intros Hstopped Hfresh. cbn zeta.
  unfold addTrack. rewrite Hfresh. cbn [fst snd].
  unfold removeTrack. cbn [_isPlaying _isPaused _tracks set_tracks].
  rewrite Hstopped.
  assert (Map_has trackId (Map_set trackId newTrack (_tracks p)) = true) as ->
    by (apply Map_has_true; rewrite Map_get_set_eq; by eexists).
  cbn [negb fst snd app]. split; [| done].
  rewrite set_tracks_twice, Map_delete_set_fresh, set_tracks_same; [done |].
  unfold Map_has in Hfresh. by destruct (Map_get trackId (_tracks p)).
Qed.

Lemma addTrack_removeTrack_witness :
  (removeTrack "kick" (addTrack "kick" initial).1).1 = initial.
Proof.
  apply (addTrack_removeTrack "kick" initial); reflexivity.
Defined.

(** X14.  On a stopped, reachable player, removing an existing track and
    adding it again under the same id does not bring its contents back: the
    track is registered anew with no cells, gain 1, unmuted, and it now
    comes last in the iteration order of the registry; the other tracks are
    untouched. *)
Theorem removeTrack_addTrack_resets (trackId : string) (p : Player) :
  reachable p ->
  busy p = false ->
  Map_has trackId (_tracks p) = true ->
  let p' := (addTrack trackId (removeTrack trackId p).1).1 in
  Map_get trackId (_tracks p') = Some newTrack /\
  (forall c, cellAt trackId c p' = None) /\
  last (_tracks p') = Some (trackId, newTrack) /\
  (forall t, t ≠ trackId -> Map_get t (_tracks p') = Map_get t (_tracks p)).
Proof.
  unfold busy. intros Hreach Hstopped Hhas. cbn zeta.
  pose proof (wf_keys p (reachable_wellFormed p Hreach)) as Hnd.
  unfold removeTrack. rewrite Hstopped, Hhas. cbn [negb fst].
  unfold addTrack. cbn [_tracks set_tracks].
  assert (Map_get trackId (Map_delete trackId (_tracks p)) = None) as Hgone
    by (by apply Map_get_delete_eq).
  unfold Map_has. rewrite Hgone. cbn [fst _tracks set_tracks].
  assert (forall (m : list (string * Track)),
             Map_get trackId m = None ->
             Map_set trackId newTrack m = m ++ [(trackId, newTrack)]) as Happ.
  { induction m as [|[k v] m IH]; cbn; [done |].
    destruct (String.eqb trackId k); [done |]. intros H. by rewrite IH. }
  repeat split.
  - apply Map_get_set_eq.
  - intros c. unfold cellAt. cbn [_tracks set_tracks].
    by rewrite Map_get_set_eq.
  - rewrite Happ by done. apply last_snoc.
  - intros t Hne. rewrite Map_get_set_ne by done.
    by apply Map_get_delete_ne.
Qed.

Lemma removeTrack_addTrack_resets_witness :
  cellAt "iya" 0
    (addTrack "iya" (removeTrack "iya" (stop combinedSession).1).1).1 = None.
Proof.
  refine (proj1 (proj2 (removeTrack_addTrack_resets "iya"
                          (stop combinedSession).1 _ eq_refl eq_refl)) 0%Z).
  apply (reach_call CStop combinedSession _ (stop combinedSession).2
           combinedSession_reachable).
  vm_compute. reflexivity.
Defined.

(** X15.  Whatever the transport state, each of [removeTrack],
    [addAudioToGrid], [removeAudioFromGrid], [setTrackVolume] and
    [setTrackMuted], called with a track id that is not registered, leaves
    the state as it was, reports a diagnostic and dispatches nothing. *)
Theorem unknown_track_rejected (op : TrackOp) (trackId : string) (p : Player) :
  Map_has trackId (_tracks p) = false ->
  rejected p (onTrack op trackId p).
Proof.
  intros Hmissing.
  assert (Map_get trackId (_tracks p) = None) as Hget
    by (unfold Map_has in Hmissing; by destruct (Map_get trackId (_tracks p))).
  unfold rejected.
  destruct op; cbn [onTrack];
    unfold removeTrack, addAudioToGrid, removeAudioFromGrid, setTrackVolume,
      setTrackMuted;
    rewrite ?Hmissing, ?Hget; cbn [negb];
    destruct (_isPlaying p || _isPaused p); by cbn.
Qed.

Lemma unknown_track_rejected_witness :
  rejected combinedSession (onTrack (TSetTrackVolume (1 # 2)) "kick" combinedSession).
Proof.
  apply (unknown_track_rejected (TSetTrackVolume (1 # 2)) "kick" combinedSession).
  reflexivity.
Defined.

(** ** Volume changes on a muted track *)



(** ** Arguments the setters refuse *)

(** X17.  In every state, [setBPM] with a BPM <= 0, [setTimeSignature] with
    a numerator or a denominator <= 0, [setSubdivisionNoteValue] with a
    value other than 4, 8, 16 and 32, and [addAudioToGrid] with a negative
    column each leave the state as it was, report a diagnostic and dispatch
    nothing. *)
Theorem invalid_arguments_rejected (p : Player) :
  (forall bpm, bpm <= 0 -> rejected p (setBPM bpm p)) /\
  (forall n d, n <= 0 \/ d <= 0 -> rejected p (setTimeSignature n d p)) /\
  (forall s, ~ (s == 4 \/ s == 8 \/ s == 16 \/ s == 32) ->
             rejected p (setSubdivisionNoteValue s p)) /\
  (forall t c b, (c < 0)%Z -> rejected p (addAudioToGrid t c b p)).
Proof.
  unfold rejected. repeat split.
  all: first
    [ unfold setBPM; destruct (_ || _); [done |];
      match goal with H : _ <= 0 |- _ =>
        apply Qle_bool_iff in H; rewrite H end; done
    | unfold setTimeSignature; destruct (_ || _); [done |];
      match goal with H : _ \/ _ |- _ =>
        destruct H as [H | H]; apply Qle_bool_iff in H; rewrite H end;
      rewrite ?orb_true_r; done
    | unfold setSubdivisionNoteValue; destruct (_ || _); [done |];
      match goal with H : ~ _ |- _ =>
        rewrite <- supportedSubdivision_cases in H;
        apply not_true_is_false in H; rewrite H end; done
    | unfold addAudioToGrid; destruct (_ || _); [done |];
      destruct (Map_get _ _); [| done];
      match goal with H : (_ < 0)%Z |- _ =>
        apply Z.ltb_lt in H; rewrite H end; done ].
Qed.

(** ** What a tick may start *)

Lemma Map_get_of_elem {V} k (v : V) m :
  NoDup m.*1 -> (k, v) ∈ m -> Map_get k m = Some v.
Proof.
  induction m as [|[k' v'] m IH]; cbn; [by intros _ ?%elem_of_nil |].
  rewrite NoDup_cons, elem_of_cons. intros [Hk Hnd] [[= -> ->]|Hin].
  - by rewrite String.eqb_refl.
  - destruct (String.eqb_spec k k') as [->|]; [| by apply IH].
    exfalso. apply Hk. apply list_elem_of_fmap. by exists (k', v).
Qed.

Lemma scheduleTracks_sound idx when tracks : forall fresh s,
  s ∈ (scheduleTracks idx when fresh tracks).1 ->
  src_when s = when /\
  exists track,
    (src_track s, track) ∈ tracks /\
    _isMuted track = false /\
    cells track !! idx = Some (src_buffer s).
Proof.
  induction tracks as [|[k t] tracks IH]; intros fresh s; cbn [scheduleTracks].
  - by intros ?%elem_of_nil.
  - assert (forall fresh',
               s ∈ (scheduleTracks idx when fresh' tracks).1 ->
               src_when s = when /\
               exists track,
                 (src_track s, track) ∈ (k, t) :: tracks /\
                 _isMuted track = false /\
                 cells track !! idx = Some (src_buffer s)) as Hrest.
    { intros fresh' Hin. destruct (IH _ _ Hin) as (Hw & track & Hel & Hm & Hc).
      split; [done |]. exists track. split; [by right | done]. }
    destruct (_isMuted t) eqn:Hmuted; cbn [negb]; [apply Hrest |].
    destruct (cells t !! idx) as [b|] eqn:Hcell; [| apply Hrest].
    destruct (isAudioBuffer b); [| by intros ?%elem_of_nil]. cbn [fst].
    rewrite elem_of_cons. intros [->|Hin]; [| by eapply Hrest].
    cbn. split; [done |]. exists t. split; [left | done].
Qed.

Lemma lookup_SourceStart_starts effs j s :
  effs !! j = Some (SourceStart s) -> s ∈ starts effs.
Proof.
  intros H. unfold starts. apply list_elem_of_omap.
  exists (SourceStart s). split; [| done]. by eapply list_elem_of_lookup_2.
Qed.

(** Within one pass: a started source plays a placement of the column the
    pass has announced as its first effect. *)
Lemma scheduleCell_sound cd mc p flow p1 effs j s :
  scheduleCell cd mc p = (flow, (p1, effs)) ->
  NoDup (_tracks p).*1 ->
  effs !! j = Some (SourceStart s) ->
  exists track c,
    Map_get (src_track s) (_tracks p) = Some track /\
    _isMuted track = false /\
    cells track !! c = Some (src_buffer s) /\
    (0 < j)%nat /\
    effs !! O = Some (Dispatch (EvGridCellChanged c (src_when s))).
Proof.
  intros Ecell Hnd Hj.
  assert (flow = Return \/ flow ≠ Return) as [-> | Hflow]
    by (destruct flow; [right | left | right]; done).
  - exfalso. apply lookup_SourceStart_starts in Hj.
    unfold scheduleCell in Ecell.
    destruct (_ && negb _);
      [| by destruct (_ && _); destruct (scheduleTracks _ _ _ _).2].
    injection Ecell as Ecell. apply (f_equal snd) in Ecell. cbn [snd] in Ecell.
    subst effs. unfold stop in Hj.
    destruct (_ && _); cbn [snd] in Hj; [by apply elem_of_nil in Hj |].
    rewrite starts_app, starts_stopAll in Hj. by apply elem_of_nil in Hj.
  - pose proof (scheduleCell_starts _ _ _ _ _ _ Ecell Hflow) as Hstarts.
    destruct (scheduleCell_scheduled _ _ _ _ _ _ Ecell Hflow)
      as (_ & _ & _ & Heffs).
    cbn zeta in Heffs.
    pose proof (lookup_SourceStart_starts _ _ _ Hj) as Hs.
    rewrite Hstarts in Hs.
    apply scheduleTracks_sound in Hs as (Hw & track & Hel & Hm & Hc).
    exists track, (_currentCellIndex p1).
    split; [by apply Map_get_of_elem |]. split; [done |]. split; [done |].
    split; [| by rewrite Heffs, Hw].
    destruct j as [|j]; [| lia]. by rewrite Heffs in Hj.
Qed.

Lemma scheduleLoop_sound fuel now cd mc : forall p p' effs j s,
  scheduleLoop fuel now cd mc p = Some (p', effs) ->
  NoDup (_tracks p).*1 ->
  effs !! j = Some (SourceStart s) ->
  exists track c i,
    Map_get (src_track s) (_tracks p) = Some track /\
    _isMuted track = false /\
    cells track !! c = Some (src_buffer s) /\
    (i < j)%nat /\
    effs !! i = Some (Dispatch (EvGridCellChanged c (src_when s))).
Proof.
  induction fuel as [|fuel IH]; intros p p' effs j s; cbn [scheduleLoop].
  - destruct (Qltb _ _); [done |]. by intros [= <- <-] _ Hin.
  - destruct (Qltb _ _); [| by intros [= <- <-] _ Hin].
    pose proof (scheduleCell_sameSetup cd mc p) as Hsame.
    pose proof (scheduleCell_sound cd mc p) as Hcell.
    destruct (scheduleCell cd mc p) as [flow [p1 effs1]] eqn:Ecell;
      cbn [fst snd] in Hsame.
    assert (forall p' effs,
               Some (p1, effs1) = Some (p', effs) ->
               NoDup (_tracks p).*1 ->
               effs !! j = Some (SourceStart s) ->
               exists track c i,
                 Map_get (src_track s) (_tracks p) = Some track /\
                 _isMuted track = false /\
                 cells track !! c = Some (src_buffer s) /\
                 (i < j)%nat /\
                 effs !! i = Some (Dispatch (EvGridCellChanged c (src_when s))))
      as Hlast.
    { intros ? ? [= <- <-] Hnd Hj.
      destruct (Hcell _ _ _ j s eq_refl Hnd Hj)
        as (track & c & Hget & Hm & Hc & Hpos & Hev).
      by exists track, c, O. }
    destruct flow; [| apply Hlast | apply Hlast].
    destruct Hsame as (_ & Htracks & _).
    destruct (scheduleLoop fuel now cd mc p1) as [[p2 effs2]|] eqn:E; [| done].
    intros [= <- <-] Hnd Hj.
    apply lookup_app_Some in Hj as [Hj|[Hlen Hj]].
    + destruct (Hcell _ _ _ j s eq_refl Hnd Hj)
        as (track & c & Hget & Hm & Hc & Hpos & Hev).
      exists track, c, O. repeat split; try done.
      by apply lookup_app_l_Some.
    + destruct (IH _ _ _ (j - length effs1)%nat s E)
        as (track & c & i & Hget & Hm & Hc & Hi & Hev);
        [by rewrite Htracks | done |].
      exists track, c, (length effs1 + i)%nat. rewrite Htracks in Hget.
      repeat split; try done; [lia |].
      by rewrite lookup_app_r, Nat.add_comm, Nat.add_sub by lia.
Qed.

(** X18.  Every source a tick starts on a reachable player plays a
    placement of the grid: it is connected to a registered, unmuted track,
    and its buffer is what that track holds at some column c for which the
    same tick has dispatched [gridCellChanged], earlier in the trace, with
    the source's start time as the deadline.  In particular muted tracks and
    empty cells start nothing, and the announcement of a column comes before
    its sounds. *)
Theorem tick_starts_only_placements (fuel : nat) (now : Q) (p p' : Player)
    (effs : list Effect) (j : nat) (s : Source) :
  reachable p ->
  _scheduleAudio fuel now p = Some (p', effs) ->
  effs !! j = Some (SourceStart s) ->
  exists track c i,
    Map_get (src_track s) (_tracks p) = Some track /\
    _isMuted track = false /\
    cells track !! c = Some (src_buffer s) /\
    (i < j)%nat /\
    effs !! i = Some (Dispatch (EvGridCellChanged c (src_when s))).
Proof.
  intros Hreach Htick Hj.
  pose proof (wf_keys p (reachable_wellFormed p Hreach)) as Hnd.
  unfold _scheduleAudio in Htick. destruct (negb (_isPlaying p)).
  - by injection Htick as <- <-.
  - by eapply scheduleLoop_sound.
Qed.

Lemma tick_starts_only_placements_witness :
  exists track c i,
    Map_get "kick" (_tracks endingSession) = Some track /\
    _isMuted track = false /\
    cells track !! c = Some (Single "kick-open") /\
    (i < 1)%nat /\
    endingTick.2 !! i = Some (Dispatch (EvGridCellChanged c 0)).
Proof.
  apply (tick_starts_only_placements 2 (1 # 20) endingSession endingTick.1
           endingTick.2 1
           {| src_id := 0; src_buffer := Single "kick-open";
              src_track := "kick"; src_when := 0 |}
           endingSession_reachable endingTick_eq).
  vm_compute. reflexivity.
Defined.

(** ** The first version of the class *)

Lemma v1_scanCells_facts cells : forall max,
  (max <= V1.scanCells max cells)%Z /\
  (forall c b, (c, b) ∈ cells -> (c < V1.scanCells max cells)%Z) /\
  (V1.scanCells max cells = max \/
   exists b, (V1.scanCells max cells - 1, b)%Z ∈ cells).
Proof.
  induction cells as [|[c0 b0] cells IH]; intros max.
  - cbn. split; [lia |]. split; [by intros ? ? ?%elem_of_nil | by left].
  - change (V1.scanCells max ((c0, b0) :: cells))
      with (V1.scanCells (if (c0 >=? max)%Z then (c0 + 1)%Z else max) cells).
    destruct (IH (if (c0 >=? max)%Z then (c0 + 1)%Z else max))
      as (Hge & Hbound & Horigin).
    destruct (Z.geb_spec c0 max) as [Hc|Hc].
    + split; [lia |]. split.
      * intros c b [[= -> ->]|Hin]%elem_of_cons; [lia | by eapply Hbound].
      * right. destruct Horigin as [->|[b Hb]].
        -- exists b0. replace (c0 + 1 - 1)%Z with c0 by lia. left.
        -- exists b. by right.
    + split; [lia |]. split.
      * intros c b [[= -> ->]|Hin]%elem_of_cons; [lia | by eapply Hbound].
      * destruct Horigin as [->|[b Hb]]; [by left |].
        right. exists b. by right.
Qed.

Lemma v1_scanTracks_facts (tracks : list (string * V1.Track)) : forall max,
  let result :=
    fold_left (fun max entry => V1.scanCells max (V1.cells entry.2)) tracks max in
  (max <= result)%Z /\
  (forall id track c b,
      (id, track) ∈ tracks -> (c, b) ∈ V1.cells track -> (c < result)%Z) /\
  (result = max \/
   exists id track b,
     (id, track) ∈ tracks /\ (result - 1, b)%Z ∈ V1.cells track).
Proof.
  induction tracks as [|[id0 t0] tracks IH]; intros max; cbn zeta.
  - cbn. split; [lia |]. split; [by intros ? ? ? ? ?%elem_of_nil | by left].
  - cbn [fold_left snd].
    destruct (IH (V1.scanCells max (V1.cells t0))) as (Hge & Hbound & Horigin).
    cbn zeta in Hge, Hbound, Horigin.
    destruct (v1_scanCells_facts (V1.cells t0) max) as (Hge0 & Hbound0 & Horigin0).
    split; [lia |]. split.
    + intros id track c b [[= -> ->]|Hin]%elem_of_cons Hcell.
      * specialize (Hbound0 _ _ Hcell). lia.
      * by eapply Hbound.
    + destruct Horigin as [Heq|(id & track & b & Hin & Hb)].
      * rewrite Heq. destruct Horigin0 as [->|[b Hb]]; [by left |].
        right. exists id0, t0, b. split; [left | done].
      * right. exists id, track, b. split; [by right | done].
Qed.

(** X19.  In the first version of the class, the measure length read off
    the grid is never negative, exceeds the column of every placed cell of
    every track, and is either 0 or one more than the column of some placed
    cell: with columns >= 0 it is the last occupied column plus one, and 0
    for an empty grid. *)
Theorem v1_maxColumns_bounds (p : V1.Player) :
  (0 <= V1._getMaxColumns p)%Z /\
  (forall id track c b,
      (id, track) ∈ V1._tracks p -> (c, b) ∈ V1.cells track ->
      (c < V1._getMaxColumns p)%Z) /\
  (V1._getMaxColumns p = 0%Z \/
   exists id track b,
     (id, track) ∈ V1._tracks p /\
     (V1._getMaxColumns p - 1, b)%Z ∈ V1.cells track).
Proof. apply (v1_scanTracks_facts (V1._tracks p) 0%Z). Qed.

(** ** Columns announced by a player that does not loop *)

Lemma scheduleCell_nonlooping cd mc N p :
  (0 < N)%Z -> mc == inject_Z N ->
  _loop p = false ->
  (-1 <= _currentCellIndex p < N)%Z ->
  exists flow p1 effs1,
    scheduleCell cd mc p = (flow, (p1, effs1)) /\
    if (_currentCellIndex p + 1 =? N)%Z
    then flow = Return
    else flow ≠ Return /\
         _currentCellIndex p1 = (_currentCellIndex p + 1)%Z.
Proof.
  intros HN Hmc Hloop [Hlow Hhigh]. unfold scheduleCell.
  cbn [_loop _currentCellIndex set_currentCellIndex]. rewrite Hloop.
  rewrite andb_true_r.
  assert (Qltb 0 mc = true) as ->.
  { apply Qltb_lt. rewrite Hmc. change 0 with (inject_Z 0).
    by rewrite <- Zlt_Qlt. }
  cbn [andb]. unfold Qgeb.
  destruct (Z.eqb_spec (_currentCellIndex p + 1) N) as [Heq|Hne].
  - assert (Qle_bool mc (inject_Z (_currentCellIndex p + 1)) = true) as ->.
    { apply Qle_bool_iff. rewrite Hmc, <- Zle_Qle. lia. }
    destruct (stop _) as [p1 effs1]. by exists Return, p1, effs1.
  - assert (Qle_bool mc (inject_Z (_currentCellIndex p + 1)) = false) as ->.
    { apply not_true_iff_false. rewrite Qle_bool_iff, Hmc, <- Zle_Qle. lia. }
    destruct (scheduleTracks _ _ _ _).2; eexists _, _, _;
      (split; [reflexivity |]); split; done.
Qed.

Lemma scheduleLoop_nonlooping fuel now cd mc N :
  (0 < N)%Z -> mc == inject_Z N ->
  forall p p' effs,
    scheduleLoop fuel now cd mc p = Some (p', effs) ->
    _loop p = false -> _isPlaying p = true ->
    (-1 <= _currentCellIndex p < N)%Z ->
    if _isPlaying p' then
      columnsOf effs
      = (fun k => _currentCellIndex p + 1 + Z.of_nat k)%Z
          <$> seq 0 (length (columnsOf effs)) /\
      _currentCellIndex p'
      = (_currentCellIndex p + Z.of_nat (length (columnsOf effs)))%Z
    else
      columnsOf effs
      = ((fun k => _currentCellIndex p + 1 + Z.of_nat k)%Z
           <$> seq 0 (Z.to_nat (N - 1 - _currentCellIndex p)))
        ++ [(-1)%Z].
Proof.
  intros HN Hmc. induction fuel as [|fuel IH]; intros p p' effs;
    cbn [scheduleLoop].
  - destruct (Qltb _ _); [done |]. intros [= <- <-] _ -> _. cbn.
    split; [done | lia].
  - destruct (Qltb _ _);
      [| intros [= <- <-] _ -> _; cbn; split; [done | lia]].
    intros H Hloop Hp Hrange.
    destruct (scheduleCell_nonlooping cd mc N p HN Hmc Hloop Hrange)
      as (flow & p1 & effs1 & Hcell & Hflow).
    destruct (Z.eqb_spec (_currentCellIndex p + 1) N) as [Heq|Hne].
    + subst flow. rewrite Hcell in H. injection H as <- <-.
      pose proof (scheduleCell_Return _ _ _ _ _ Hcell Hp)
        as (Hb & _ & _ & _ & _ & _ & Hev).
      assert (_isPlaying p1 = false) as ->
        by (unfold busy in Hb; by apply orb_false_elim in Hb as [? _]).
      unfold columnsOf. rewrite Hev.
      replace (N - 1 - _currentCellIndex p)%Z with 0%Z by lia. reflexivity.
    + destruct Hflow as [Hflow Hidx]. rewrite Hcell in H.
      pose proof (scheduleCell_sameSetup cd mc p) as Hsame.
      rewrite Hcell in Hsame. cbn [fst snd] in Hsame.
      destruct Hsame as (_ & _ & _ & _ & _ & _ & Hloop1 & _).
      destruct (scheduleCell_running _ _ _ _ _ _ Hcell Hflow)
        as (Hpl & _ & _ & _ & Hev).
      assert (columnsOf effs1 = [_currentCellIndex p1]) as Hcols1
        by (unfold columnsOf; by rewrite Hev).
      destruct flow; [| done |].
      * destruct (scheduleLoop fuel now cd mc p1) as [[p2 effs2]|] eqn:E;
          [| done].
        injection H as <- <-.
        specialize (IH _ _ _ E).
        rewrite columnsOf_app, Hcols1, Hidx in *. cbn [app length].
        destruct (_isPlaying p2).
        -- destruct IH as [Hcols Hidx2]; [congruence | congruence | lia |].
           split; [| lia]. cbn [seq fmap list_fmap].
           f_equal; [lia |]. rewrite Hcols at 1.
           rewrite <- seq_shift, <- list_fmap_compose.
           apply list_fmap_ext. intros _ k _. cbn [compose]. lia.
        -- rewrite IH; [| congruence | congruence | lia].
           replace (Z.to_nat (N - 1 - _currentCellIndex p))
             with (S (Z.to_nat (N - 1 - (_currentCellIndex p + 1)))) by lia.
           cbn [seq fmap list_fmap app].
           f_equal; [lia |]. f_equal.
           rewrite <- seq_shift, <- list_fmap_compose.
           apply list_fmap_ext. intros _ k _. cbn [compose]. lia.
      * injection H as <- <-. rewrite Hpl, Hp, Hcols1, Hidx.
        cbn [length seq fmap list_fmap]. split; [f_equal; lia | lia].
Qed.

(** X21.  With looping off and an integer number N of columns per measure,
    a tick on a playing, reachable player announces the columns after the
    pointer one by one in increasing order, without wrapping.  If it returns
    still playing, the pointer has advanced by the number of columns
    announced; if it returns stopped, it has announced every remaining
    column up to N - 1 exactly once and then column -1. *)
Theorem tick_columns_once (fuel : nat) (now : Q) (N : Z) (p p' : Player)
    (effs : list Effect) :
  reachable p ->
  _isPlaying p = true ->
  _loop p = false ->
  _getMaxColumns p == inject_Z N ->
  _scheduleAudio fuel now p = Some (p', effs) ->
  if _isPlaying p' then
    columnsOf effs
    = (fun k => _currentCellIndex p + 1 + Z.of_nat k)%Z
        <$> seq 0 (length (columnsOf effs)) /\
    _currentCellIndex p'
    = (_currentCellIndex p + Z.of_nat (length (columnsOf effs)))%Z
  else
    columnsOf effs
    = ((fun k => _currentCellIndex p + 1 + Z.of_nat k)%Z
         <$> seq 0 (Z.to_nat (N - 1 - _currentCellIndex p)))
      ++ [(-1)%Z].
Proof.
  intros Hreach Hp Hloop HN Htick.
  destruct (cursor_in_range_aux p Hreach) as (_ & Hlow & Hhigh).
  pose proof (wellFormed_maxColumns_pos p (reachable_wellFormed p Hreach)) as Hpos.
  rewrite HN in Hhigh, Hpos. change 0 with (inject_Z 0) in Hpos.
  rewrite <- Zlt_Qlt in Hhigh, Hpos.
  apply tick_loop in Htick; [| done].
  by eapply scheduleLoop_nonlooping.
Qed.

Lemma tick_columns_once_witness : columnsOf endingTick.2 = [0; -1]%Z.
Proof.
  pose proof (tick_columns_once 2 (1 # 20) 1 endingSession endingTick.1
                endingTick.2 endingSession_reachable eq_refl eq_refl) as H.
  assert (_isPlaying endingTick.1 = false) as E by (vm_compute; reflexivity).
  rewrite E in H. rewrite H.
  - vm_compute. reflexivity.
  - reflexivity.
  - apply endingTick_eq.
Defined.
